(** * markdown-preview-include: the include expander, embedded and verified

    The development follows [src/source/includeSettings.ts] (the settings
    interface followed by the current version of the plugin):
    [sliceLines], [formatQuote], [replace] and [execute], together with the
    two directive patterns.  The two earlier versions among the sources
    fill in the messages and splice in the same way; they lack the quote
    mode and, the earliest, the word indices.  JavaScript strings are modelled as [string]
    (one [ascii] per code unit, so texts are restricted to code units below
    256), numbers produced by [parseInt] as [number] (NaN or an integer),
    and the file system as a function from paths to entries.  Every call of
    [fs.existsSync] and [fs.readFileSync] is recorded in an event log, as is
    every entry to and exit from [execute]. *)

From Stdlib Require Import String Ascii List ZArith Lia Bool Arith DecimalString.
Import ListNotations.
Open Scope string_scope.
Open Scope nat_scope.

(* ================================================================== *)
(** ** JavaScript primitives used by the plugin *)
(* ================================================================== *)

Module JS.

(** Line feed and carriage return; Rocq string literals have no escapes. *)
Definition LF : ascii := ascii_of_nat 10.
Definition CR : ascii := ascii_of_nat 13.
Definition nl : string := String LF "".

(** [WhiteSpace] and [LineTerminator] code units below 256: what [\s],
    [String.prototype.trim] and the prefix skipped by [parseInt] accept. *)
Definition isWhiteSpace (c : ascii) : bool :=
  let n := nat_of_ascii c in
  (n =? 9) || (n =? 10) || (n =? 11) || (n =? 12) || (n =? 13)
  || (n =? 32) || (n =? 160).

Definition isDigit (c : ascii) : bool :=
  let n := nat_of_ascii c in (48 <=? n) && (n <=? 57).

(** [s.slice(0, n)] and [s.slice(n, s.length)] for [0 <= n]. *)
Fixpoint take (n : nat) (s : string) : string :=
  match n, s with
  | S n', String c s' => String c (take n' s')
  | _, _ => ""
  end.

Fixpoint drop (n : nat) (s : string) : string :=
  match n, s with
  | S n', String _ s' => drop n' s'
  | _, _ => s
  end.

Fixpoint trimStart (s : string) : string :=
  match s with
  | String c s' => if isWhiteSpace c then trimStart s' else s
  | "" => ""
  end.

Fixpoint trimEnd (s : string) : string :=
  match s with
  | "" => ""
  | String c s' =>
      match trimEnd s' with
      | "" => if isWhiteSpace c then "" else String c ""
      | t => String c t
      end
  end.

Definition trim (s : string) : string := trimEnd (trimStart s).

(** Prepend a code unit to the first piece of a split under construction. *)
Definition push (c : ascii) (pieces : list string) : list string :=
  match pieces with
  | w :: ws => String c w :: ws
  | [] => [String c ""]
  end.

(** [s.split(sep)] for a one-character string separator. *)
Fixpoint splitOn (sep : ascii) (s : string) : list string :=
  match s with
  | "" => [""]
  | String c s' =>
      if Ascii.eqb c sep then "" :: splitOn sep s' else push c (splitOn sep s')
  end.

(** [s.split(/\r?\n/)]. *)
Fixpoint splitLines (s : string) : list string :=
  match s with
  | "" => [""]
  | String c s' =>
      if Ascii.eqb c LF then "" :: splitLines s'
      else
        match s' with
        | String d s'' =>
            if Ascii.eqb c CR && Ascii.eqb d LF then "" :: splitLines s''
            else push c (splitLines s')
        | "" => [String c ""]
        end
  end.

(** [s.split(/\s+/)]: every maximal run of white space is one separator;
    leading or trailing white space leaves an empty first or last piece. *)
Fixpoint splitWs_from (inSep : bool) (s : string) : list string :=
  match s with
  | "" => [""]
  | String c s' =>
      if isWhiteSpace c then
        if inSep then splitWs_from true s' else "" :: splitWs_from true s'
      else push c (splitWs_from false s')
  end.

Definition splitWs (s : string) : list string := splitWs_from false s.

(** [pieces.join(sep)]. *)
Fixpoint join (sep : string) (pieces : list string) : string :=
  match pieces with
  | [] => ""
  | [x] => x
  | x :: xs => x ++ sep ++ join sep xs
  end.

(** Numbers as [parseInt] produces them.  Integers are kept exact; beyond
    2^53 JavaScript rounds, which no comparison with an array length can
    observe. *)
Inductive number : Type :=
| NaN
| Num (z : Z).

Definition minus (a : number) (k : Z) : number :=
  match a with NaN => NaN | Num z => Num (z - k) end.

Definition plus (a : number) (k : Z) : number :=
  match a with NaN => NaN | Num z => Num (z + k) end.

(** [a > 0]. *)
Definition positive (a : number) : bool :=
  match a with NaN => false | Num z => (0 <? z)%Z end.

Definition digitValue (c : ascii) : option Z :=
  let n := nat_of_ascii c in
  if (48 <=? n) && (n <=? 57) then Some (Z.of_nat (n - 48))
  else if (97 <=? n) && (n <=? 122) then Some (Z.of_nat (n - 87))
  else if (65 <=? n) && (n <=? 90) then Some (Z.of_nat (n - 55))
  else None.

(** The longest prefix of digits of the radix; [acc] is [None] until a
    digit has been read. *)
Fixpoint parseDigits (radix : Z) (acc : option Z) (s : string) : option Z :=
  match s with
  | "" => acc
  | String c s' =>
      match digitValue c with
      | Some d =>
          if (d <? radix)%Z
          then parseDigits radix
                 (Some (radix * match acc with Some a => a | None => 0 end + d)%Z) s'
          else acc
      | None => acc
      end
  end.

(** [parseInt(s)] without a radix argument. *)
Definition parseInt (s : string) : number :=
  let s := trimStart s in
  let '(negative, s) :=
    match s with
    | String "-" r => (true, r)
    | String "+" r => (false, r)
    | _ => (false, s)
    end in
  let '(radix, s) :=
    match s with
    | String "0" (String "x" r) => (16%Z, r)
    | String "0" (String "X" r) => (16%Z, r)
    | _ => (10%Z, s)
    end in
  match parseDigits radix None s with
  | None => NaN
  | Some n => Num (if negative then - n else n)
  end.

(** The relative index clamping of [Array.prototype.slice]. *)
Definition relIndex (len : nat) (k : number) : nat :=
  match k with
  | NaN => 0
  | Num z =>
      if (z <? 0)%Z then Z.to_nat (Z.max (Z.of_nat len + z) 0)
      else Nat.min (Z.to_nat z) len
  end.

(** [l.slice(start, end)]; [end_ = None] stands for an omitted argument. *)
Definition slice {A : Type} (l : list A) (start : number) (end_ : option number)
  : list A :=
  let len := List.length l in
  let k := relIndex len start in
  let final := match end_ with None => len | Some e => relIndex len e end in
  firstn (final - k) (skipn k l).

(** [l[i] = v] for an index inside the array. *)
Fixpoint update {A : Type} (i : nat) (v : A) (l : list A) : list A :=
  match l, i with
  | [], _ => []
  | _ :: xs, 0 => v :: xs
  | x :: xs, S i' => x :: update i' v xs
  end.

(** [s.indexOf(pat)]: the position of the first occurrence. *)
Fixpoint indexOf (pat s : string) : option nat :=
  if String.prefix pat s then Some 0
  else
    match s with
    | "" => None
    | String _ s' => option_map S (indexOf pat s')
    end.

(** [GetSubstitution] for a string pattern (no captures): the replacement
    text is scanned for [$$], [$&], [$`] and [$']. *)
Fixpoint getSubstitution (matched before after replacement : string) : string :=
  match replacement with
  | "" => ""
  | String c r =>
      if Ascii.eqb c "$" then
        match r with
        | String d r' =>
            if Ascii.eqb d "$" then
              String "$" (getSubstitution matched before after r')
            else if Ascii.eqb d "&" then
              matched ++ getSubstitution matched before after r'
            else if Ascii.eqb d "`" then
              before ++ getSubstitution matched before after r'
            else if Ascii.eqb d "'" then
              after ++ getSubstitution matched before after r'
            else String c (getSubstitution matched before after r)
        | "" => String c ""
        end
      else String c (getSubstitution matched before after r)
  end.

(** [s.replace(pat, replacement)] with a string pattern: only the first
    occurrence is replaced. *)
Definition replace (s pat replacement : string) : string :=
  match indexOf pat s with
  | None => s
  | Some i =>
      let before := take i s in
      let after := drop (i + String.length pat) s in
      before ++ getSubstitution pat before after replacement ++ after
  end.

(** [s.replace(/\\/g, '/')]. *)
Fixpoint backslashesToSlashes (s : string) : string :=
  match s with
  | "" => ""
  | String c s' =>
      String (if Ascii.eqb c "\" then "/"%char else c) (backslashesToSlashes s')
  end.

Definition lowerChar (c : ascii) : ascii :=
  let n := nat_of_ascii c in
  if ((65 <=? n) && (n <=? 90))
     || ((192 <=? n) && (n <=? 222) && negb (n =? 215))
  then ascii_of_nat (n + 32) else c.

Definition upperAscii (c : ascii) : ascii :=
  let n := nat_of_ascii c in
  if (97 <=? n) && (n <=? 122) then ascii_of_nat (n - 32) else c.

Fixpoint toLowerCase (s : string) : string :=
  match s with
  | "" => ""
  | String c s' => String (lowerChar c) (toLowerCase s')
  end.

(** [n.toString()] for a non-negative integer. *)
Definition toString (n : Z) : string :=
  NilEmpty.string_of_uint (N.to_uint (Z.to_N n)).

(** Truthiness of an optional string: [undefined] and [''] are falsy. *)
Definition truthy (s : option string) : bool :=
  match s with
  | Some (String _ _) => true
  | _ => false
  end.

End JS.

(* ================================================================== *)
(** ** Range selector *)
(* ================================================================== *)

(** The second half of [sliceLines], from the test for an empty selection
    on: word-level slicing of the selected lines and the final join. *)
Definition sliceWords (selectedLines : list string) (startWord : JS.number)
    (endWord : option JS.number) : string :=
  match selectedLines with
  | [] => ""
  | first :: _ =>
      if JS.positive startWord
         || (match endWord with Some _ => true | None => false end) then
        if List.length selectedLines =? 1 then
          let words := JS.splitWs first in
          let wordEnd :=
            match endWord with
            | Some e => e
            | None => JS.Num (Z.of_nat (List.length words))
            end in
          JS.join " " (JS.slice words startWord (Some wordEnd))
        else
          let words := JS.splitWs first in
          let selectedLines :=
            JS.update 0 (JS.join " " (JS.slice words startWord None))
              selectedLines in
          let selectedLines :=
            match endWord with
            | Some e =>
                if 1 <? List.length selectedLines then
                  let lastWords :=
                    JS.splitWs
                      (nth (List.length selectedLines - 1) selectedLines "") in
                  JS.update (List.length selectedLines - 1)
                    (JS.join " " (JS.slice lastWords (JS.Num 0) (Some e)))
                    selectedLines
                else selectedLines
            | None => selectedLines
            end in
          JS.join JS.nl selectedLines
      else JS.join JS.nl selectedLines
  end.

(** [sliceLines(content, startSpec, endSpec)]: the parsing of the two specs
    and the selection of the lines, then [sliceWords]. *)
Definition sliceLines (content : string) (startSpec endSpec : option string)
  : string :=
  if negb (JS.truthy startSpec) then content
  else
    let startSpec := match startSpec with Some s => s | None => "" end in
    let lines := JS.splitLines content in
    let startParts := JS.splitOn "." startSpec in
    let startLine := JS.minus (JS.parseInt (nth 0 startParts "")) 1 in
    let startWord :=
      if 1 <? List.length startParts
      then JS.parseInt (nth 1 startParts "") else JS.Num 0 in
    let '(endLine, endWord) :=
      if JS.truthy endSpec then
        let endSpec := match endSpec with Some s => s | None => "" end in
        let endParts := JS.splitOn "." endSpec in
        (JS.parseInt (nth 0 endParts ""),
         if 1 <? List.length endParts
         then Some (JS.parseInt (nth 1 endParts "")) else None)
      else (JS.plus startLine 1, None) in
    let selectedLines := JS.slice lines startLine (Some endLine) in
    sliceWords selectedLines startWord endWord.

(** The three-line text of the worked examples. *)
Definition three_lines : string :=
  "a b c" ++ JS.nl ++ "d e f" ++ JS.nl ++ "g h i".


(* ================================================================== *)
(** ** Directive matcher: a backtracking matcher for the two patterns *)
(* ================================================================== *)

Module Regex.

(** Character classes of the two patterns. *)
Inductive cls : Type :=
| Digit                  (* \d *)
| Space                  (* \s *)
| Dot                    (* .  *)
| NoneOf (cs : string).  (* [^cs] *)

(** Both patterns carry the [i] flag.  All pattern characters are ASCII, and
    a code unit of 128 or more never canonicalizes to an ASCII one, so
    upper-casing ASCII letters decides every comparison. *)
Definition canonicalize (c : ascii) : ascii := JS.upperAscii c.

Fixpoint member (c : ascii) (cs : string) : bool :=
  match cs with
  | "" => false
  | String a cs' => Ascii.eqb (canonicalize a) (canonicalize c) || member c cs'
  end.

Definition cls_match (k : cls) (c : ascii) : bool :=
  match k with
  | Digit => JS.isDigit c
  | Space => JS.isWhiteSpace c
  | Dot => negb (Ascii.eqb c JS.LF || Ascii.eqb c JS.CR)
  | NoneOf cs => negb (member c cs)
  end.

(** The fragment of regular expressions the patterns are written in.
    Quantifiers [*], [+] and [+?] only ever apply to one character class:
    [Rep k min lazy] is [k{min,}], greedy unless [lazy]. *)
Inductive regex : Type :=
| Empty
| Lit (l : string)
| Rep (k : cls) (min : nat) (lazy : bool)
| Cat (r1 r2 : regex)
| Alt (r1 r2 : regex)
| Opt (r : regex)
| Group (n : nat) (r : regex).

Definition Seq (rs : list regex) : regex := fold_right Cat Empty rs.

Definition captures : Type := list (nat * string).

Fixpoint capture (n : nat) (cs : captures) : option string :=
  match cs with
  | [] => None
  | (m, s) :: cs' => if n =? m then Some s else capture n cs'
  end.

Fixpoint lit_match (l s : string) : option string :=
  match l with
  | "" => Some s
  | String a l' =>
      match s with
      | String c s' =>
          if Ascii.eqb (canonicalize a) (canonicalize c) then lit_match l' s'
          else None
      | "" => None
      end
  end.

(** Exactly [n] characters of the class. *)
Fixpoint rep_exact (k : cls) (n : nat) (s : string) : option string :=
  match n with
  | 0 => Some s
  | S n' =>
      match s with
      | String c s' => if cls_match k c then rep_exact k n' s' else None
      | "" => None
      end
  end.

Section Backtracking.
Context {R : Type}.

(** [k*], longest first. *)
Fixpoint rep_greedy (k : cls) (s : string) (kont : string -> option R)
  : option R :=
  match s with
  | String c s' =>
      if cls_match k c then
        match rep_greedy k s' kont with
        | Some r => Some r
        | None => kont s
        end
      else kont s
  | "" => kont s
  end.

(** [k*?], shortest first. *)
Fixpoint rep_lazy (k : cls) (s : string) (kont : string -> option R)
  : option R :=
  match kont s with
  | Some r => Some r
  | None =>
      match s with
      | String c s' => if cls_match k c then rep_lazy k s' kont else None
      | "" => None
      end
  end.

(** Match [r] at the head of [s], then hand the rest of the input and the
    captures to the continuation; a failing continuation makes the
    matcher try its next alternative. *)
Fixpoint run (r : regex) (s : string) (cs : captures)
    (kont : string -> captures -> option R) : option R :=
  match r with
  | Empty => kont s cs
  | Lit l =>
      match lit_match l s with
      | Some s' => kont s' cs
      | None => None
      end
  | Rep k min lazy =>
      match rep_exact k min s with
      | Some s' =>
          (if lazy then rep_lazy else rep_greedy) k s' (fun s'' => kont s'' cs)
      | None => None
      end
  | Cat r1 r2 => run r1 s cs (fun s' cs' => run r2 s' cs' kont)
  | Alt r1 r2 =>
      match run r1 s cs kont with
      | Some x => Some x
      | None => run r2 s cs kont
      end
  | Opt r' =>
      match run r' s cs kont with
      | Some x => Some x
      | None => kont s cs
      end
  | Group n r' =>
      run r' s cs
        (fun s' cs' =>
           kont s' ((n, JS.take (String.length s - String.length s') s) :: cs'))
  end.
End Backtracking.

(** What [exec] returns on success: [index], element 0 and the groups. *)
Record result : Type := mkResult {
  index : nat;
  whole : string;
  groups : captures
}.

Definition match_here (r : regex) (s : string) : option (string * captures) :=
  run r s [] (fun rest cs => Some (rest, cs)).

(** [r.exec(s)] for a pattern without the [g] flag: the leftmost match. *)
Fixpoint exec_from (r : regex) (s : string) (idx : nat) : option result :=
  match match_here r s with
  | Some (rest, cs) =>
      Some (mkResult idx (JS.take (String.length s - String.length rest) s) cs)
  | None =>
      match s with
      | String _ s' => exec_from r s' (S idx)
      | "" => None
      end
  end.

Definition exec (r : regex) (s : string) : option result := exec_from r s 0.

End Regex.

Import Regex.

(** [\d+(?:\.\d+)?] *)
Definition LINE_SPEC : regex :=
  Seq [Rep Digit 1 false; Opt (Seq [Lit "."; Rep Digit 1 false])].

(** [(?:\{\s*(noquote|quote)\s*\})?] with the group numbered [n]. *)
Definition QUOTE_MODIFIER (n : nat) : regex :=
  Opt (Seq [Lit "{"; Rep Space 0 false;
            Group n (Alt (Lit "noquote") (Lit "quote"));
            Rep Space 0 false; Lit "}"]).

Definition COMMONMARK_PATTERN : regex :=
  Seq [Lit ":";
       Opt (Seq [Lit "["; Group 1 (Rep (NoneOf "|]") 0 false);
                 Opt (Lit "|"); Group 2 (Rep (NoneOf "]") 0 false); Lit "]"]);
       Lit "(";
       Group 3 (Rep (NoneOf ")#") 1 false);
       Opt (Seq [Lit "#L"; Group 4 LINE_SPEC;
                 Opt (Seq [Lit "-"; Group 5 LINE_SPEC])]);
       Lit ")";
       Rep Space 0 false;
       QUOTE_MODIFIER 6].

Definition MARKDOWN_IT_PATTERN : regex :=
  Seq [Lit "!!!"; Rep Space 0 false; Lit "include"; Rep Space 0 false;
       Lit "("; Rep Space 0 false;
       Group 1 (Rep Dot 1 true);
       Opt (Seq [Rep Space 0 false; Lit "#L"; Group 2 LINE_SPEC;
                 Opt (Seq [Lit "-"; Group 3 LINE_SPEC])]);
       Rep Space 0 false; Lit ")"; Rep Space 0 false;
       QUOTE_MODIFIER 4;
       Rep Space 0 false; Lit "!!!"].

(* ================================================================== *)
(** ** Settings, host capabilities and effects *)
(* ================================================================== *)

(** [IncludeSettings]: every field is optional. *)
Record IncludeSettings : Type := mkSettings {
  commonmarkRegex : option bool;
  markdownItRegex : option bool;
  customPattern : option regex;
  notFoundMessage : option string;
  circularMessage : option string;
  quoteFormatting : option bool;
  quoteIncludeSource : option bool;
  quoteSourceLabel : option string;
  omissionIndicator : option bool
}.

(** [settings = { }]. *)
Definition no_settings : IncludeSettings :=
  mkSettings None None None None None None None None None.

Definition DEFAULT_COMMONMARK_REGEX : bool := true.
Definition DEFAULT_MARKDOWN_IT_REGEX : bool := true.
Definition DEFAULT_NOT_FOUND_MESSAGE : string := "File '{{FILE}}' not found".
Definition DEFAULT_CIRCULAR_MESSAGE : string :=
  "Circular reference between '{{FILE}}' and '{{PARENT}}'".
Definition DEFAULT_QUOTE_FORMATTING : bool := false.
Definition DEFAULT_QUOTE_INCLUDE_SOURCE : bool := true.
Definition DEFAULT_QUOTE_SOURCE_LABEL : string := "Source".

(** [o === undefined ? d : o] *)
Definition orDefault {A : Type} (o : option A) (d : A) : A :=
  match o with Some a => a | None => d end.

(** [o || d] on optional strings. *)
Definition orElse (o : option string) (d : string) : string :=
  match o with Some (String _ _ as s) => s | _ => d end.

(** What a path names on disk. *)
Inductive entry : Type :=
| File (content : string)
| Directory.

(** The capabilities the plugin takes from Node: [path.resolve],
    [path.dirname], [path.basename] and the file system behind
    [fs.existsSync] and [fs.readFileSync]. *)
Record Host : Type := mkHost {
  resolve : string -> string -> string;
  dirname : string -> string;
  basename : string -> string;
  disk : string -> option entry
}.

(** What a run leaves in its log: the two file-system calls, and the entry
    to [execute] for a file, with the processed-files list once the file
    has been pushed on it, and the exit from it. *)
Inductive event : Type :=
| ExistsSync (path : string) (found : bool)
| ReadFileSync (path : string)
| Enter (file : string) (processedFiles : list string)
| Leave.

Inductive exception : Type :=
| ReadError (path : string)   (* readFileSync on something not a file *)
| TypeError.                  (* a property read on undefined *)

Inductive outcome (A : Type) : Type :=
| Done (a : A)
| Threw (e : exception)
| OutOfFuel.

Arguments Done {A} a.
Arguments Threw {A} e.
Arguments OutOfFuel {A}.

(** A computation: how it ended and the events it caused, oldest first. *)
Definition M (A : Type) : Type := (outcome A * list event)%type.

Definition ret {A : Type} (a : A) : M A := (Done a, []).

Definition bind {A B : Type} (m : M A) (f : A -> M B) : M B :=
  match m with
  | (Done a, log) => let '(r, log') := f a in (r, (log ++ log')%list)
  | (Threw e, log) => (Threw e, log)
  | (OutOfFuel, log) => (OutOfFuel, log)
  end.

Definition emit (e : event) : M unit := (Done tt, [e]).
Definition throw {A : Type} (e : exception) : M A := (Threw e, []).
Definition out_of_fuel {A : Type} : M A := (OutOfFuel, []).

Notation "x <- m ;; k" := (bind m (fun x => k))
  (at level 61, m at next level, right associativity).
Notation "m ;;; k" := (bind m (fun _ => k))
  (at level 61, right associativity).

Definition existsSync (h : Host) (path : string) : M bool :=
  let found := match disk h path with Some _ => true | None => false end in
  emit (ExistsSync path found) ;;; ret found.

Definition readFileSync (h : Host) (path : string) : M string :=
  emit (ReadFileSync path) ;;;
  match disk h path with
  | Some (File content) => ret content
  | _ => throw (ReadError path)
  end.

(* ================================================================== *)
(** ** Quote formatter *)
(* ================================================================== *)

(** [line => line.trim().length === 0 ? '>' : `> ${line}`] *)
Definition quoteLine (line : string) : string :=
  if String.length (JS.trim line) =? 0 then ">" else "> " ++ line.

(** [a < b] with a possibly-NaN right operand. *)
Definition lessThan (a : Z) (b : JS.number) : bool :=
  match b with JS.NaN => false | JS.Num z => (a <? z)%Z end.

(** The [for] loop of the column computation: [words] is what is left of
    the array from index [i] on. *)
Fixpoint walkWords (wordOffset : JS.number) (i : Z) (words : list string)
    (charPos : Z) : Z :=
  match words with
  | [] => charPos
  | w :: rest =>
      if lessThan i wordOffset then
        let charPos := (charPos + Z.of_nat (String.length w))%Z in
        let charPos :=
          if lessThan i (JS.minus wordOffset 1) || (0 <? String.length w)
          then (charPos + 1)%Z else charPos in
        walkWords wordOffset (i + 1) rest charPos
      else charPos
  end.

(** The line and column shown in the citation link. *)
Definition citationPosition (startLine originalContent : option string)
  : string * string :=
  if JS.truthy startLine then
    let startParts := JS.splitOn "." (orDefault startLine "") in
    let lineNumber := nth 0 startParts "" in
    if (1 <? List.length startParts) && JS.truthy originalContent then
      let wordOffset := JS.parseInt (nth 1 startParts "") in
      let lineIndex := JS.minus (JS.parseInt lineNumber) 1 in
      let lines := JS.splitLines (orDefault originalContent "") in
      match lineIndex with
      | JS.Num z =>
          if (0 <=? z)%Z && (z <? Z.of_nat (List.length lines))%Z then
            let line := nth (Z.to_nat z) lines "" in
            let words := JS.splitWs line in
            (lineNumber, JS.toString (walkWords wordOffset 0 words 1))
          else (lineNumber, "1")
      | JS.NaN => (lineNumber, "1")
      end
    else (lineNumber, "1")
  else ("1", "1").

(** [formatQuote(content, sourcePath, sourceLabel, includeSource, startLine,
    originalContent)]. *)
Definition formatQuote (h : Host) (content sourcePath sourceLabel : string)
    (includeSource : bool) (startLine originalContent : option string)
  : string :=
  let quoted := JS.join JS.nl (map quoteLine (JS.splitLines content)) in
  if negb includeSource then quoted
  else
    let filename := basename h sourcePath in
    let normalizedPath := JS.backslashesToSlashes sourcePath in
    let '(lineNumber, columnNumber) :=
      citationPosition startLine originalContent in
    let vsCodeUri :=
      "vscode://file/" ++ normalizedPath ++ ":" ++ lineNumber ++ ":"
      ++ columnNumber in
    let sourceText :=
      "*" ++ sourceLabel ++ ": [" ++ filename ++ "](<" ++ vsCodeUri ++ ">)*" in
    quoted ++ JS.nl ++ "> " ++ JS.nl ++ "> " ++ sourceText.

(* ================================================================== *)
(** ** Resolver / expander *)
(* ================================================================== *)

(** [a.slice(0, index) + child + a.slice(index + length, a.length)] *)
Definition splice (parentContent : string) (regexResult : result)
    (childContent : string) : string :=
  JS.take (index regexResult) parentContent
  ++ childContent
  ++ JS.drop (index regexResult + String.length (whole regexResult))
       parentContent.

(** [processedFiles.indexOf(childFile) !== -1] *)
Definition processed (processedFiles : list string) (childFile : string)
  : bool :=
  existsb (String.eqb childFile) processedFiles.

(** [quoteOverride ? quoteOverride.toLowerCase() === 'quote' : globalQuote] *)
Definition shouldQuote (settings : IncludeSettings)
    (quoteOverride : option string) : bool :=
  let globalQuote :=
    orDefault (quoteFormatting settings) DEFAULT_QUOTE_FORMATTING in
  if JS.truthy quoteOverride
  then String.eqb (JS.toLowerCase (orDefault quoteOverride "")) "quote"
  else globalQuote.

(** [replace]; the recursive call to [execute] is the parameter [execute]. *)
Definition replace (h : Host) (settings : IncludeSettings)
    (execute : string -> string -> option (list string) -> M string)
    (regexResult : result)
    (parentContent parentFolder parentFile childName : string)
    (notFoundMessage circulareMessage : string)
    (processedFiles : list string)
    (startLine endLine quoteOverride : option string) : M string :=
  let childFile := resolve h parentFolder childName in
  childContent <-
    (found <- existsSync h childFile ;;
     if negb found then
       ret (JS.replace notFoundMessage "{{FILE}}" childFile)
     else if processed processedFiles childFile then
       ret (JS.replace (JS.replace circulareMessage "{{FILE}}" childFile)
              "{{PARENT}}" parentFile)
     else
       originalContent <- readFileSync h childFile ;;
       let childContent := sliceLines originalContent startLine endLine in
       childContent <- execute childContent childFile (Some processedFiles) ;;
       let includeSource :=
         orDefault (quoteIncludeSource settings) DEFAULT_QUOTE_INCLUDE_SOURCE in
       let sourceLabel :=
         orElse (quoteSourceLabel settings) DEFAULT_QUOTE_SOURCE_LABEL in
       if shouldQuote settings quoteOverride then
         ret (formatQuote h childContent childFile sourceLabel includeSource
                startLine (Some originalContent))
       else ret childContent) ;;
  ret (splice parentContent regexResult childContent).

(** [while ((regexResult = pattern.exec(parentContent))) parentContent =
    step(regexResult, parentContent)]; one unit of fuel per test of the
    loop condition. *)
Fixpoint scan (fuel : nat) (pattern : regex)
    (step : result -> string -> M string) (parentContent : string)
  : M string :=
  match fuel with
  | 0 => out_of_fuel
  | S fuel' =>
      match exec pattern parentContent with
      | None => ret parentContent
      | Some regexResult =>
          parentContent' <- step regexResult parentContent ;;
          scan fuel' pattern step parentContent'
      end
  end.

(** [regexResult[n].trim()] for the group holding the file name. *)
Definition fileName (regexResult : result) (n : nat) : M string :=
  match capture n (groups regexResult) with
  | Some name => ret (JS.trim name)
  | None => throw TypeError
  end.

(** The body of either loop: the call of [replace] with the file name and
    the optional range and modifier read from the groups numbered [name],
    [start], [end_] and [quote]. *)
Definition resolveDirective (h : Host) (settings : IncludeSettings)
    (execute : string -> string -> option (list string) -> M string)
    (parentFolder parentFile : string) (processedFiles : list string)
    (name start end_ quote : nat)
    (regexResult : result) (parentContent : string) : M string :=
  childName <- fileName regexResult name ;;
  replace h settings execute regexResult parentContent parentFolder parentFile
    childName
    (orElse (notFoundMessage settings) DEFAULT_NOT_FOUND_MESSAGE)
    (orElse (circularMessage settings) DEFAULT_CIRCULAR_MESSAGE)
    processedFiles
    (capture start (groups regexResult))
    (capture end_ (groups regexResult))
    (capture quote (groups regexResult)).

(** [execute(parentContent, parentFile, processedFiles)].  [fuel] bounds the
    nesting of includes and the iterations of each loop. *)
Fixpoint execute (h : Host) (settings : IncludeSettings) (fuel : nat)
    (parentContent parentFile : string)
    (processedFiles : option (list string)) : M string :=
  match fuel with
  | 0 => out_of_fuel
  | S fuel' =>
      let processedFiles := (orDefault processedFiles [] ++ [parentFile])%list in
      emit (Enter parentFile processedFiles) ;;;
      let parentFolder := dirname h parentFile in
      let step :=
        resolveDirective h settings (execute h settings fuel') parentFolder
          parentFile processedFiles in
      parentContent <-
        (if orDefault (commonmarkRegex settings) DEFAULT_COMMONMARK_REGEX
         then scan fuel' COMMONMARK_PATTERN (step 3 4 5 6) parentContent
         else ret parentContent) ;;
      parentContent <-
        (if orDefault (markdownItRegex settings) DEFAULT_MARKDOWN_IT_REGEX
         then scan fuel' MARKDOWN_IT_PATTERN (step 1 2 3 4) parentContent
         else ret parentContent) ;;
      emit Leave ;;;
      ret parentContent
  end.

(* ================================================================== *)
(** ** A small POSIX host for the worked examples *)
(* ================================================================== *)

Module Posix.

(** Everything before the last slash, and everything after it. *)
Fixpoint splitLast (p : string) : option (string * string) :=
  match p with
  | "" => None
  | String c p' =>
      match splitLast p' with
      | Some (d, b) => Some (String c d, b)
      | None => if Ascii.eqb c "/" then Some ("", p') else None
      end
  end.

Definition dirname (p : string) : string :=
  match splitLast p with
  | Some ("", _) => "/"
  | Some (d, _) => d
  | None => "."
  end.

Definition basename (p : string) : string :=
  match splitLast p with
  | Some (_, b) => b
  | None => p
  end.

(** Absolute names stand for themselves; relative ones are joined to the
    folder.  No [.] or [..] segments are interpreted and an empty name is
    not special: this is [path.resolve] on plain names only, the only ones
    the worked examples use. *)
Definition resolve (folder name : string) : string :=
  match name with
  | String "/" _ => name
  | _ => if String.eqb folder "/" then "/" ++ name else folder ++ "/" ++ name
  end.

Fixpoint lookup (files : list (string * entry)) (p : string) : option entry :=
  match files with
  | [] => None
  | (q, e) :: files' => if String.eqb p q then Some e else lookup files' p
  end.

Definition host (files : list (string * entry)) : Host :=
  mkHost resolve dirname basename (lookup files).

End Posix.

(* ================================================================== *)
(** ** Vocabulary of the statements *)
(* ================================================================== *)

(** *** Range specs *)

(** The line number a range spec [N] or [N.W] carries, as [sliceLines] and
    [formatQuote] read it. *)
Definition specLine (spec : string) : JS.number :=
  JS.parseInt (nth 0 (JS.splitOn "." spec) "").

(** Its word index, when it has one. *)
Definition specWord (spec : string) : option JS.number :=
  let parts := JS.splitOn "." spec in
  if 1 <? List.length parts then Some (JS.parseInt (nth 1 parts "")) else None.

(** The word index [sliceLines] starts from: 0 when the spec has none. *)
Definition startWordOf (spec : string) : JS.number :=
  match specWord spec with Some w => w | None => JS.Num 0 end.

(** The lines numbered [first] to [last], both included, counting from 1. *)
Definition linesFromTo (lines : list string) (first last : Z) : list string :=
  firstn (Z.to_nat last - Z.to_nat (first - 1))
    (skipn (Z.to_nat (first - 1)) lines).

(** The words with index [first] up to, not including, [last], from 0. *)
Definition wordsFromTo (words : list string) (first last : Z) : list string :=
  firstn (Z.to_nat last - Z.to_nat first) (skipn (Z.to_nat first) words).

(** *** Groups of a match *)

(** The groups every successful match of [r] has set. *)
Fixpoint alwaysSet (r : regex) : list nat :=
  match r with
  | Empty | Lit _ | Rep _ _ _ | Opt _ => []
  | Cat r1 r2 => (alwaysSet r1 ++ alwaysSet r2)%list
  | Alt r1 r2 =>
      filter (fun n => existsb (Nat.eqb n) (alwaysSet r2)) (alwaysSet r1)
  | Group n r' => n :: alwaysSet r'
  end.

(** [t] is [l] up to the case of ASCII letters. *)
Fixpoint litEq (l t : string) : bool :=
  match l, t with
  | "", "" => true
  | String a l', String c t' =>
      Ascii.eqb (canonicalize a) (canonicalize c) && litEq l' t'
  | _, _ => false
  end.

Fixpoint allIn (k : cls) (t : string) : bool :=
  match t with
  | "" => true
  | String c t' => cls_match k c && allIn k t'
  end.

(** The texts [r] can match. *)
Fixpoint Lang (r : regex) (t : string) : Prop :=
  match r with
  | Empty => t = ""
  | Lit l => litEq l t = true
  | Rep k min _ => allIn k t = true /\ min <= String.length t
  | Cat r1 r2 => exists t1 t2, t = t1 ++ t2 /\ Lang r1 t1 /\ Lang r2 t2
  | Alt r1 r2 => Lang r1 t \/ Lang r2 t
  | Opt r' => t = "" \/ Lang r' t
  | Group _ r' => Lang r' t
  end.

(** The bodies of the groups numbered [n] in [r]. *)
Fixpoint groupsOf (n : nat) (r : regex) : list regex :=
  match r with
  | Empty | Lit _ | Rep _ _ _ => []
  | Cat r1 r2 | Alt r1 r2 => (groupsOf n r1 ++ groupsOf n r2)%list
  | Opt r' => groupsOf n r'
  | Group m r' => if n =? m then r' :: groupsOf n r' else groupsOf n r'
  end.

(** A captured range spec is a line number, with or without a word index,
    both non-negative. *)
Definition wellFormedSpec (spec : string) : Prop :=
  spec <> ""
  /\ (exists n, specLine spec = JS.Num n /\ (0 <= n)%Z)
  /\ (specWord spec = None
      \/ exists w, specWord spec = Some (JS.Num w) /\ (0 <= w)%Z).

(** Every group set in [cs] is set in [cs']. *)
Definition keepsGroups (cs cs' : captures) : Prop :=
  forall n, capture n cs <> None -> capture n cs' <> None.

(** *** Settings in force *)

Definition commonmarkEnabled (settings : IncludeSettings) : bool :=
  orDefault (commonmarkRegex settings) DEFAULT_COMMONMARK_REGEX.

Definition markdownItEnabled (settings : IncludeSettings) : bool :=
  orDefault (markdownItRegex settings) DEFAULT_MARKDOWN_IT_REGEX.

Definition circularTemplate (settings : IncludeSettings) : string :=
  orElse (circularMessage settings) DEFAULT_CIRCULAR_MESSAGE.

Definition sourceLabelOf (settings : IncludeSettings) : string :=
  orElse (quoteSourceLabel settings) DEFAULT_QUOTE_SOURCE_LABEL.

Definition includeSourceOf (settings : IncludeSettings) : bool :=
  orDefault (quoteIncludeSource settings) DEFAULT_QUOTE_INCLUDE_SOURCE.

(** Settings that differ from the defaults in the quote switches only. *)
Definition quote_settings (formatting includeSource : bool) : IncludeSettings :=
  mkSettings None None None None None (Some formatting) (Some includeSource)
    None None.

(** Settings with both message templates configured. *)
Definition message_settings (notFound circular : string) : IncludeSettings :=
  mkSettings None None None (Some notFound) (Some circular) None None None None.

(** *** Placeholders *)

(** [pat] occurs in [s] between [pre] and [post], and nowhere earlier. *)
Definition firstOccurrence (pat s pre post : string) : Prop :=
  s = pre ++ pat ++ post /\ JS.indexOf pat s = Some (String.length pre).

(** No dollar sign, hence no replacement pattern, in the text. *)
Fixpoint dollarFree (s : string) : bool :=
  match s with
  | "" => true
  | String c s' => negb (Ascii.eqb c "$") && dollarFree s'
  end.

(** *** The inclusion chain *)


(** *** The citation column *)

(** The column as the spec words it (C8): one, plus for each of the first
    [wordOffset] words its length and one separating space. *)
Fixpoint specColumn (words : list string) (wordOffset : nat) : Z :=
  match wordOffset, words with
  | S k, w :: rest => (Z.of_nat (String.length w) + 1 + specColumn rest k)%Z
  | _, _ => 1%Z
  end.

(** The characters the column walk steps over for the first [k] words: the
    length of each and one separating space, except that no space is
    counted after the last of the [k] words when that word is empty. *)
Fixpoint consumed (words : list string) (k : nat) : Z :=
  match k, words with
  | S k', w :: rest =>
      (Z.of_nat (String.length w)
       + (if Nat.eqb k' 0 && Nat.eqb (String.length w) 0 then 0 else 1)
       + consumed rest k')%Z
  | _, _ => 0%Z
  end.

Fixpoint spaceFree (w : string) : bool :=
  match w with
  | "" => true
  | String c w' => negb (JS.isWhiteSpace c) && spaceFree w'
  end.

(** A non-empty piece of text without white space. *)
Definition isWord (w : string) : bool :=
  negb (String.eqb w "") && spaceFree w.

(** *** Folders of the worked examples *)

(** [root.md] includes a missing file and itself, both with the quote
    modifier. *)
Definition lonely_root : string := ":(x.md){quote}|:(root.md){quote}".

Definition lonely_host : Host := Posix.host [("/d/root.md", File lonely_root)].

(** A file of three lines, the middle one blank. *)
Definition gapped : string := "a" ++ JS.nl ++ JS.nl ++ "b".

Definition gapped_host : Host := Posix.host [("/d/a.md", File gapped)].

(** A Style B directive for an empty file sits inside what reads as a
    Style A directive once it is gone. *)
Definition glued : string := ":!!!include(a.md)!!!(b.md)".

Definition glued_host : Host :=
  Posix.host [("/d/root.md", File glued);
              ("/d/a.md", File ""); ("/d/b.md", File "B")].



(** The root includes [a.md], which includes the root. *)
Definition mutual_root : string := "root[:(a.md)]".

Definition mutual_host : Host :=
  Posix.host [("/d/root.md", File mutual_root);
              ("/d/a.md", File "a[!!! include (root.md) !!!]")].



(** A file whose second line has three words separated by single spaces. *)
Definition greek_host : Host :=
  Posix.host [("/d/a.md", File ("title" ++ JS.nl ++ "alpha beta gamma"))].

(** A document with two dollar signs in its name that includes itself, and
    a document that includes a missing file named alike, then [b.md]. *)
Definition dollar_self : string := ":($$.md)".

Definition dollar_missing : string := "see :(cost$$.md)|:(b.md)".

Definition dollar_host : Host :=
  Posix.host [("/d/$$.md", File dollar_self);
              ("/d/root.md", File dollar_missing);
              ("/d/b.md", File "B")].

(** A file whose only line begins with two spaces. *)
Definition indented_host : Host := Posix.host [("/d/a.md", File "  a b c")].

(** A file that begins with a parenthesis, for a document that includes it
    right after a colon. *)
Definition note_root : string := "Note:!!!include(a.md)!!!".

Definition note_host : Host := Posix.host [("/d/a.md", File "(see above)")].

(** Settings with Style A switched off. *)
Definition style_B_only : IncludeSettings :=
  mkSettings (Some false) None None None None None None None None.

(** A line with two spaces between its two words, and a line that begins
    with a space. *)
Definition spaced_host : Host :=
  Posix.host [("/d/a.md", File "a  b"); ("/d/i.md", File " a b")].

(** A document whose file name holds the text of a placeholder; it
    includes [a.md], which includes it back. *)
Definition placeholder_host : Host :=
  Posix.host [("/d/{{PARENT}}.md", File ":(a.md)");
              ("/d/a.md", File ":({{PARENT}}.md)")].

(* ================================================================== *)
(** ** The entry trigger *)
(* ================================================================== *)

(** [trigger(state)]: [activeTextEditor] is [None] when the window has no
    active editor, [Some None] when its document has no file name.  The
    value is what [state.src] holds afterwards. *)
Definition trigger (h : Host) (settings : IncludeSettings) (fuel : nat)
    (activeTextEditor : option (option string)) (src : string) : M string :=
  match activeTextEditor with
  | None => ret src
  | Some None => ret src
  | Some (Some file) => execute h settings fuel src file None
  end.

(* ================================================================== *)
(** ** The two earlier versions of the plugin *)
(* ================================================================== *)

(** [src/source/include.ts]: line ranges without word indices, no quote
    mode. *)
Module V1.

(** [\d+] *)
Definition LINE_NUMBER : regex := Rep Digit 1 false.

Definition COMMONMARK_PATTERN : regex :=
  Seq [Lit ":";
       Opt (Seq [Lit "["; Group 1 (Rep (NoneOf "|]") 0 false);
                 Opt (Lit "|"); Group 2 (Rep (NoneOf "]") 0 false); Lit "]"]);
       Lit "(";
       Group 3 (Rep (NoneOf ")#") 1 false);
       Opt (Seq [Lit "#L"; Group 4 LINE_NUMBER;
                 Opt (Seq [Lit "-"; Group 5 LINE_NUMBER])]);
       Lit ")"].

Definition MARKDOWN_IT_PATTERN : regex :=
  Seq [Lit "!!!"; Rep Space 0 false; Lit "include"; Rep Space 0 false;
       Lit "("; Rep Space 0 false;
       Group 1 (Rep Dot 1 true);
       Opt (Seq [Rep Space 0 false; Lit "#L"; Group 2 LINE_NUMBER;
                 Opt (Seq [Lit "-"; Group 3 LINE_NUMBER])]);
       Rep Space 0 false; Lit ")"; Rep Space 0 false; Lit "!!!"].

(** [sliceLines(content, startLine, endLine)] *)
Definition sliceLines (content : string) (startLine endLine : option string)
  : string :=
  if negb (JS.truthy startLine) then content
  else
    let lines := JS.splitLines content in
    let start := JS.minus (JS.parseInt (orDefault startLine "")) 1 in
    let end_ :=
      if JS.truthy endLine then JS.parseInt (orDefault endLine "")
      else JS.plus start 1 in
    JS.join JS.nl (JS.slice lines start (Some end_)).

End V1.

(** [src/unnamed/part_000]: word indices, no quote mode.  Its [sliceLines]
    is, word for word, the one of the current version. *)
Module V2.

Definition COMMONMARK_PATTERN : regex :=
  Seq [Lit ":";
       Opt (Seq [Lit "["; Group 1 (Rep (NoneOf "|]") 0 false);
                 Opt (Lit "|"); Group 2 (Rep (NoneOf "]") 0 false); Lit "]"]);
       Lit "(";
       Group 3 (Rep (NoneOf ")#") 1 false);
       Opt (Seq [Lit "#L"; Group 4 LINE_SPEC;
                 Opt (Seq [Lit "-"; Group 5 LINE_SPEC])]);
       Lit ")"].

Definition MARKDOWN_IT_PATTERN : regex :=
  Seq [Lit "!!!"; Rep Space 0 false; Lit "include"; Rep Space 0 false;
       Lit "("; Rep Space 0 false;
       Group 1 (Rep Dot 1 true);
       Opt (Seq [Rep Space 0 false; Lit "#L"; Group 2 LINE_SPEC;
                 Opt (Seq [Lit "-"; Group 3 LINE_SPEC])]);
       Rep Space 0 false; Lit ")"; Rep Space 0 false; Lit "!!!"].

End V2.

(* ================================================================== *)
(** ** Vocabulary of the further properties *)
(* ================================================================== *)

Fixpoint hasChar (c : ascii) (s : string) : bool :=
  match s with
  | "" => false
  | String d s' => Ascii.eqb d c || hasChar c s'
  end.

(** No carriage return directly before a line feed. *)
Fixpoint crlfFree (s : string) : bool :=
  match s with
  | "" => true
  | String c s' =>
      negb (Ascii.eqb c JS.CR
            && match s' with String d _ => Ascii.eqb d JS.LF | "" => false end)
      && crlfFree s'
  end.

(** Every [readFileSync] in the log comes directly after an [existsSync]
    that found the same path; [previous] is the event before the log. *)
Fixpoint readsGuarded (previous : option event) (log : list event) : bool :=
  match log with
  | [] => true
  | e :: log' =>
      match e with
      | ReadFileSync p =>
          match previous with
          | Some (ExistsSync q true) => String.eqb p q
          | _ => false
          end
      | _ => true
      end && readsGuarded (Some e) log'
  end.

(** [replay] with two more checks: a file that is entered is not on the
    chain yet, and a file that is read is not on the chain. *)
Fixpoint replayFresh (chain : list string) (log : list event)
  : option (list string) :=
  match log with
  | [] => Some chain
  | Enter file processedFiles :: log' =>
      if negb (processed chain file) then
        if list_eq_dec string_dec processedFiles (chain ++ [file])%list
        then replayFresh (chain ++ [file])%list log'
        else None
      else None
  | Leave :: log' => replayFresh (removelast chain) log'
  | ReadFileSync p :: log' =>
      if processed chain p then None else replayFresh chain log'
  | ExistsSync _ _ :: log' => replayFresh chain log'
  end.

(** The processed-files list of every entry in the log has no duplicate. *)
Definition entriesDistinct (log : list event) : Prop :=
  Forall (fun e => match e with
                   | Enter _ processedFiles => NoDup processedFiles
                   | _ => True
                   end) log.

(** What [execute], [replace] and [formatQuote] read from the settings. *)
Definition effective (settings : IncludeSettings)
  : bool * bool * string * string * bool * bool * string :=
  (commonmarkEnabled settings, markdownItEnabled settings,
   orElse (notFoundMessage settings) DEFAULT_NOT_FOUND_MESSAGE,
   circularTemplate settings,
   orDefault (quoteFormatting settings) DEFAULT_QUOTE_FORMATTING,
   includeSourceOf settings, sourceLabelOf settings).

(** Whatever [m] throws is a read error on a path that names a folder. *)
Definition throwsOnFoldersOnly (h : Host) (m : M string) : Prop :=
  forall e, fst m = Threw e ->
            exists path, e = ReadError path /\ disk h path = Some Directory.

(** The log of [m] replays from [chain] with the two freshness checks; if
    [m] ran to its end, the chain is then [chain']. *)
Definition freshRun {A : Type} (chain chain' : list string) (m : M A) : Prop :=
  exists final,
    replayFresh chain (snd m) = Some final
    /\ (forall a, fst m = Done a -> final = chain').

(** [g] applied to what an optional value holds. *)
Definition andThen {A B : Type} (g : A -> option B) (o : option A) : option B :=
  match o with Some x => g x | None => None end.

(** A folder with a sub-folder. *)
Definition folder_host : Host :=
  Posix.host [("/d/root.md", File "see :(sub) and :(a.md)");
              ("/d/sub", Directory); ("/d/a.md", File "A")].

(** A text without a Style A directive that holds one once its Style B
    directive has been replaced by nothing. *)
Definition reopening : string := ":!!!include(e.md)!!!(a.md)".

(** [a.md] holds that text and [e.md] is empty. *)
Definition looping_host : Host :=
  Posix.host [("/d/a.md", File reopening); ("/d/e.md", File "")].

(* ================================================================== *)
(** * Proofs *)
(* ================================================================== *)

(** ** Strings and arrays *)

Lemma append_assoc (a b c : string) : (a ++ b) ++ c = a ++ b ++ c.
Proof. induction a as [|x a IH]; simpl; [reflexivity | now rewrite IH]. Qed.

Lemma append_empty_r (a : string) : a ++ "" = a.
Proof. induction a as [|x a IH]; simpl; [reflexivity | now rewrite IH]. Qed.

Lemma take_append (a b : string) : JS.take (String.length a) (a ++ b) = a.
Proof. induction a as [|x a IH]; simpl; [now destruct b | now rewrite IH]. Qed.

Lemma drop_append (a b : string) : JS.drop (String.length a) (a ++ b) = b.
Proof. induction a as [|x a IH]; simpl; [now destruct b | exact IH]. Qed.

(** [slice] between two non-negative bounds is a plain sub-list. *)
Lemma slice_between {A : Type} (l : list A) (a b : Z) :
  (0 <= a)%Z -> (0 <= b)%Z ->
  JS.slice l (JS.Num a) (Some (JS.Num b))
  = firstn (Z.to_nat b - Z.to_nat a) (skipn (Z.to_nat a) l).
Proof.
  intros Ha Hb. unfold JS.slice, JS.relIndex.
  destruct (Z.ltb_spec a 0) as [|_]; [lia|].
  destruct (Z.ltb_spec b 0) as [|_]; [lia|].
  set (len := List.length l).
  destruct (Nat.le_gt_cases len (Z.to_nat a)) as [Hge | Hlt].
  - rewrite (Nat.min_r _ _ Hge).
    rewrite !skipn_all2 by (fold len; lia). now rewrite !firstn_nil.
  - rewrite (Nat.min_l (Z.to_nat a) len) by lia.
    destruct (Nat.le_gt_cases (Z.to_nat b) len) as [Hb' | Hb'].
    + now rewrite (Nat.min_l _ _ Hb').
    + rewrite (Nat.min_r (Z.to_nat b) len) by lia.
      rewrite !firstn_all2; try reflexivity;
        rewrite length_skipn; fold len; lia.
Qed.

Lemma slice_one_line (lines : list string) (n : Z) (line : string) :
  (1 <= n)%Z ->
  nth_error lines (Z.to_nat (n - 1)) = Some line ->
  JS.slice lines (JS.Num (n - 1)) (Some (JS.Num n)) = [line].
Proof.
  intros Hn Hline. rewrite slice_between by lia.
  replace (Z.to_nat n - Z.to_nat (n - 1)) with 1 by lia.
  revert Hline. generalize (Z.to_nat (n - 1)). intros k. revert lines.
  induction k as [|k IH]; intros [|x xs]; simpl; try discriminate.
  - intros [= ->]. reflexivity.
  - apply IH.
Qed.

Lemma specWord_none (spec : string) :
  specWord spec = None -> (1 <? List.length (JS.splitOn "." spec)) = false.
Proof. unfold specWord. now destruct (1 <? _). Qed.

Lemma specWord_some (spec : string) (w : JS.number) :
  specWord spec = Some w ->
  (1 <? List.length (JS.splitOn "." spec)) = true
  /\ JS.parseInt (nth 1 (JS.splitOn "." spec) "") = w.
Proof. unfold specWord. destruct (1 <? _); [intros [= <-]; auto | discriminate]. Qed.

Lemma truthy_nonempty (s : string) : s <> "" -> JS.truthy (Some s) = true.
Proof. destruct s; [congruence | reflexivity]. Qed.

(** ** Range selector *)

Lemma sliceLines_with_end (content startSpec endSpec : string) :
  startSpec <> "" -> endSpec <> "" ->
  sliceLines content (Some startSpec) (Some endSpec)
  = sliceWords
      (JS.slice (JS.splitLines content) (JS.minus (specLine startSpec) 1)
         (Some (specLine endSpec)))
      (startWordOf startSpec) (specWord endSpec).
Proof.
  intros Hs He. unfold sliceLines, startWordOf, specWord, specLine.
  rewrite !truthy_nonempty by assumption. cbn [negb].
  now destruct (1 <? _), (1 <? _).
Qed.

Lemma sliceLines_without_end (content startSpec : string)
    (endSpec : option string) :
  startSpec <> "" -> JS.truthy endSpec = false ->
  sliceLines content (Some startSpec) endSpec
  = sliceWords
      (JS.slice (JS.splitLines content) (JS.minus (specLine startSpec) 1)
         (Some (JS.plus (JS.minus (specLine startSpec) 1) 1)))
      (startWordOf startSpec) None.
Proof.
  intros Hs He. unfold sliceLines, startWordOf, specWord, specLine.
  rewrite truthy_nonempty by assumption. rewrite He. cbn [negb].
  now destruct (1 <? _).
Qed.

Lemma sliceWords_whole_lines (selectedLines : list string) :
  sliceWords selectedLines (JS.Num 0) None = JS.join JS.nl selectedLines.
Proof. now destruct selectedLines. Qed.

(** C1 (as amended).  An end spec with line number M bounds the selection
    by the 0-based index M, exclusively, while the start line N is index
    N-1; counted from 1 as the specs are, the lines selected are N to M,
    both included, whatever word indices the specs carry, and without word
    indices the result is those lines joined.  On the three-line text start
    1 with end 3 is the whole text, an end line equal to the start line
    selects that one line, and an end line before the start line selects
    nothing. *)
Theorem sliceLines_end_line_inclusive :
  (forall content startSpec endSpec n m,
      startSpec <> "" -> endSpec <> "" ->
      specLine startSpec = JS.Num n -> specLine endSpec = JS.Num m ->
      (1 <= n)%Z -> (0 <= m)%Z ->
      sliceLines content (Some startSpec) (Some endSpec)
      = sliceWords (linesFromTo (JS.splitLines content) n m)
          (startWordOf startSpec) (specWord endSpec)
      /\ (specWord startSpec = None -> specWord endSpec = None ->
          sliceLines content (Some startSpec) (Some endSpec)
          = JS.join JS.nl (linesFromTo (JS.splitLines content) n m)))
  /\ sliceLines three_lines (Some "1") (Some "3") = three_lines
  /\ sliceLines three_lines (Some "2") (Some "2") = "d e f"
  /\ sliceLines three_lines (Some "3") (Some "2") = "".
Proof.
  split; [|repeat split; reflexivity].
  intros content startSpec endSpec n m Hs He Hn Hm Hn1 Hm0.
  rewrite sliceLines_with_end by assumption. rewrite Hn, Hm. cbn [JS.minus].
  rewrite slice_between by lia. fold (linesFromTo (JS.splitLines content) n m).
  split; [reflexivity|].
  intros Hsw Hew. unfold startWordOf. rewrite Hsw, Hew.
  apply sliceWords_whole_lines.
Qed.

Lemma sliceLines_end_line_inclusive_witness :
  sliceLines ("x" ++ JS.nl ++ "y" ++ JS.nl ++ "z") (Some "2") (Some "3")
  = "y" ++ JS.nl ++ "z".
Proof.
  exact (proj2 (proj1 sliceLines_end_line_inclusive
                  ("x" ++ JS.nl ++ "y" ++ JS.nl ++ "z") "2" "3" 2%Z 3%Z
                  ltac:(discriminate) ltac:(discriminate) eq_refl eq_refl
                  ltac:(lia) ltac:(lia)) eq_refl eq_refl).
Defined.

(** C1 as the spec words it: the end line number would be excluded. *)
Lemma sliceLines_end_line_not_excluded :
  sliceLines three_lines (Some "1") (Some "3") <> "a b c" ++ JS.nl ++ "d e f"
  /\ sliceLines three_lines (Some "2") (Some "2") <> "".
Proof. split; vm_compute; discriminate. Qed.

(** One line and its pieces.  Without an end spec the selection is the
    start line alone, whole when the start spec has no word index (or index
    0) and from piece W to the last piece otherwise; with word indices on
    both specs of one line the pieces W up to, not including, V are kept,
    counted from 0 over what [split(/\s+/)] returns, empty pieces
    included. *)
Lemma sliceLines_start_line_and_pieces :
  (forall content startSpec n line,
      startSpec <> "" -> specLine startSpec = JS.Num n -> (1 <= n)%Z ->
      nth_error (JS.splitLines content) (Z.to_nat (n - 1)) = Some line ->
      (forall endSpec, JS.truthy endSpec = false ->
         (specWord startSpec = None \/ specWord startSpec = Some (JS.Num 0) ->
          sliceLines content (Some startSpec) endSpec = line)
         /\ (forall w, specWord startSpec = Some (JS.Num w) -> (0 < w)%Z ->
             sliceLines content (Some startSpec) endSpec
             = JS.join " " (skipn (Z.to_nat w) (JS.splitWs line))))
      /\ (forall endSpec w v,
             endSpec <> "" -> specLine endSpec = JS.Num n ->
             specWord startSpec = Some (JS.Num w) ->
             specWord endSpec = Some (JS.Num v) ->
             (0 <= w)%Z -> (0 <= v)%Z ->
             sliceLines content (Some startSpec) (Some endSpec)
             = JS.join " " (wordsFromTo (JS.splitWs line) w v)))
  /\ sliceLines three_lines (Some "2") None = "d e f"
  /\ sliceLines three_lines (Some "1.1") (Some "1.2") = "b".
Proof.
  split; [|split; reflexivity].
  intros content startSpec n line Hs Hn Hn1 Hline. split.
  - intros endSpec Hend.
    rewrite sliceLines_without_end by assumption.
    rewrite Hn. cbn [JS.minus JS.plus].
    replace (n - 1 + 1)%Z with n by lia.
    rewrite (slice_one_line _ n line Hn1 Hline). unfold startWordOf.
    split.
    + intros [-> | ->]; reflexivity.
    + intros w -> Hpos. unfold sliceWords. cbn [JS.positive].
      destruct (Z.ltb_spec 0 w) as [_|]; [|lia]. cbn [orb List.length Nat.eqb].
      rewrite slice_between by lia.
      rewrite Nat2Z.id. apply f_equal.
      apply firstn_all2. rewrite length_skipn. lia.
  - intros endSpec w v He Hen Hw Hv Hw0 Hv0.
    rewrite sliceLines_with_end by assumption.
    rewrite Hn, Hen, Hv. cbn [JS.minus].
    rewrite (slice_one_line _ n line Hn1 Hline).
    unfold startWordOf, sliceWords. rewrite Hw.
    rewrite orb_true_r. cbn [List.length Nat.eqb].
    now rewrite slice_between by lia.
Qed.

(** C5 at a failing input.  The selector counts the pieces of
    [split(/\s+/)], and a line that begins with white space has an empty
    first piece: on every such line the range N.0 to N.1 selects the empty
    string, not the first word, and every word index is one more than the
    word's.  The line ["  a b c"] with the range 1.1 to 1.2 gives ["a"],
    where word 1 is ["b"], as it is on the line ["a b c"]; so does the
    directive [:(a.md#L1.1-1.2)] for a file that holds that line. *)
Theorem indented_line_shifts_word_indices :
  (forall content startSpec endSpec n c rest,
      startSpec <> "" -> endSpec <> "" ->
      specLine startSpec = JS.Num n -> specLine endSpec = JS.Num n ->
      (1 <= n)%Z ->
      nth_error (JS.splitLines content) (Z.to_nat (n - 1))
      = Some (String c rest) ->
      JS.isWhiteSpace c = true ->
      specWord startSpec = Some (JS.Num 0) ->
      specWord endSpec = Some (JS.Num 1) ->
      sliceLines content (Some startSpec) (Some endSpec) = "")
  /\ JS.splitWs "  a b c" = [""; "a"; "b"; "c"]
  /\ sliceLines "  a b c" (Some "1.1") (Some "1.2") = "a"
  /\ sliceLines "a b c" (Some "1.1") (Some "1.2") = "b"
  /\ fst (execute indented_host no_settings 5 ":(a.md#L1.1-1.2)" "/d/root.md"
            None)
     = Done "a".
Proof.
  split; [|repeat split; reflexivity].
  intros content startSpec endSpec n c rest Hs He Hn Hen Hn1 Hline Hc Hw Hv.
  destruct (proj1 sliceLines_start_line_and_pieces content startSpec n
              (String c rest) Hs Hn Hn1 Hline) as [_ Hwords].
  rewrite (Hwords endSpec 0%Z 1%Z He Hen Hw Hv) by lia.
  unfold wordsFromTo, JS.splitWs. cbn [JS.splitWs_from]. rewrite Hc.
  reflexivity.
Qed.

Lemma indented_line_shifts_word_indices_witness :
  sliceLines "  a b c" (Some "1.0") (Some "1.1") = "".
Proof.
  exact (proj1 indented_line_shifts_word_indices "  a b c" "1.0" "1.1" 1%Z
           " "%char " a b c" ltac:(discriminate) ltac:(discriminate) eq_refl
           eq_refl ltac:(lia) eq_refl eq_refl eq_refl eq_refl).
Defined.

(** ** Directive matcher *)

Lemma rep_greedy_some {R : Type} (k : cls) (s : string)
    (kont : string -> option R) (x : R) :
  rep_greedy k s kont = Some x -> exists s', kont s' = Some x.
Proof.
  induction s as [|c s IH]; simpl; [eauto|].
  destruct (cls_match k c); [|eauto].
  destruct (rep_greedy k s kont) eqn:Hrest; [|eauto].
  intros [= ->]. now apply IH.
Qed.

Lemma rep_lazy_some {R : Type} (k : cls) (s : string)
    (kont : string -> option R) (x : R) :
  rep_lazy k s kont = Some x -> exists s', kont s' = Some x.
Proof.
  induction s as [|c s IH]; simpl.
  - destruct (kont "") eqn:Hk; [|discriminate]. intros [= ->]. eauto.
  - destruct (kont (String c s)) eqn:Hk; [intros [= ->]; eauto|].
    destruct (cls_match k c); [apply IH | discriminate].
Qed.

Lemma length_append (a b : string) :
  String.length (a ++ b) = String.length a + String.length b.
Proof. induction a as [|x a IH]; simpl; [reflexivity | now rewrite IH]. Qed.

Lemma lit_match_sound (l s s' : string) :
  lit_match l s = Some s' -> exists t, s = t ++ s' /\ litEq l t = true.
Proof.
  revert s. induction l as [|a l IH]; intros s; simpl.
  - intros [= ->]. now exists "".
  - destruct s as [|c s]; [discriminate|].
    destruct (Ascii.eqb (canonicalize a) (canonicalize c)) eqn:Hc;
      [|discriminate].
    intros H. apply IH in H as (t & -> & Ht).
    exists (String c t). simpl. now rewrite Hc, Ht.
Qed.

Lemma rep_exact_sound (k : cls) (n : nat) (s s' : string) :
  rep_exact k n s = Some s' ->
  exists t, s = t ++ s' /\ allIn k t = true /\ String.length t = n.
Proof.
  revert s. induction n as [|n IH]; intros s; simpl.
  - intros [= ->]. now exists "".
  - destruct s as [|c s]; [discriminate|].
    destruct (cls_match k c) eqn:Hc; [|discriminate].
    intros H. apply IH in H as (t & -> & Ht & Hlen).
    exists (String c t). simpl. rewrite Hc, Ht, Hlen. auto.
Qed.

Lemma rep_greedy_sound {R : Type} (k : cls) (s : string)
    (kont : string -> option R) (x : R) :
  rep_greedy k s kont = Some x ->
  exists t s', s = t ++ s' /\ allIn k t = true /\ kont s' = Some x.
Proof.
  induction s as [|c s IH]; simpl; [intros H; now exists "", ""|].
  destruct (cls_match k c) eqn:Hc; [|intros H; now exists "", (String c s)].
  destruct (rep_greedy k s kont) eqn:Hrest;
    [|intros H; now exists "", (String c s)].
  intros [= ->]. destruct (IH eq_refl) as (t & s' & -> & Ht & Hk).
  exists (String c t), s'. simpl. now rewrite Hc, Ht.
Qed.

Lemma rep_lazy_sound {R : Type} (k : cls) (s : string)
    (kont : string -> option R) (x : R) :
  rep_lazy k s kont = Some x ->
  exists t s', s = t ++ s' /\ allIn k t = true /\ kont s' = Some x.
Proof.
  induction s as [|c s IH]; simpl.
  - destruct (kont "") eqn:Hk; [|discriminate]. intros [= ->].
    now exists "", "".
  - destruct (kont (String c s)) eqn:Hk;
      [intros [= ->]; now exists "", (String c s)|].
    destruct (cls_match k c) eqn:Hc; [|discriminate].
    intros H. destruct (IH H) as (t & s' & -> & Ht & Hk').
    exists (String c t), s'. simpl. now rewrite Hc, Ht.
Qed.

Lemma allIn_append (k : cls) (a b : string) :
  allIn k a = true -> allIn k b = true -> allIn k (a ++ b) = true.
Proof.
  induction a as [|c a IH]; simpl; [auto|].
  intros H Hb. apply andb_prop in H as [-> H]. simpl. auto.
Qed.

(** A successful run has consumed a text of the language of [r], and every
    group it leaves set was set before or holds a text of the language of
    a group of that number in [r]. *)
Lemma run_sound {R : Type} (r : regex) :
  forall (s : string) (cs : captures)
         (kont : string -> captures -> option R) (x : R),
    run r s cs kont = Some x ->
    exists t s' cs',
      s = t ++ s' /\ Lang r t /\ kont s' cs' = Some x
      /\ (forall n q, capture n cs' = Some q ->
          capture n cs = Some q
          \/ exists r', In r' (groupsOf n r) /\ Lang r' q).
Proof.
  induction r as [| l | k min lazy | r1 IH1 r2 IH2 | r1 IH1 r2 IH2 | r IH
                 | m r IH];
    intros s cs kont x; cbn [run Lang groupsOf].
  - intros H. exists "", s, cs. auto.
  - destruct (lit_match l s) as [s'|] eqn:Hl; [|discriminate].
    apply lit_match_sound in Hl as (t & -> & Ht).
    intros H. exists t, s', cs. auto.
  - destruct (rep_exact k min s) as [s1|] eqn:He; [|discriminate].
    apply rep_exact_sound in He as (t1 & -> & Ht1 & Hlen).
    intros H.
    assert (Htail : exists t2 s', s1 = t2 ++ s' /\ allIn k t2 = true
                                  /\ kont s' cs = Some x).
    { destruct lazy; [apply rep_lazy_sound in H | apply rep_greedy_sound in H];
        exact H. }
    destruct Htail as (t2 & s' & -> & Ht2 & Hk).
    exists (t1 ++ t2), s', cs. rewrite append_assoc.
    repeat split; auto using allIn_append.
    rewrite length_append. lia.
  - intros H. apply IH1 in H as (t1 & s1 & cs1 & -> & Hl1 & H & Hc1).
    apply IH2 in H as (t2 & s2 & cs2 & -> & Hl2 & H & Hc2).
    exists (t1 ++ t2), s2, cs2. rewrite append_assoc.
    repeat split; eauto.
    intros n q Hq. destruct (Hc2 n q Hq) as [Hq1 | (r' & Hin & Hr')].
    + destruct (Hc1 n q Hq1) as [Hq0 | (r' & Hin & Hr')]; [auto|].
      right. exists r'. split; [apply in_or_app|]; auto.
    + right. exists r'. split; [apply in_or_app|]; auto.
  - destruct (run r1 s cs kont) eqn:H1.
    + intros [= ->]. apply IH1 in H1 as (t & s' & cs' & -> & Hl & H & Hc).
      exists t, s', cs'. repeat split; auto.
      intros n q Hq. destruct (Hc n q Hq) as [|(r' & Hin & Hr')]; [auto|].
      right. exists r'. split; [apply in_or_app|]; auto.
    + intros H2. apply IH2 in H2 as (t & s' & cs' & -> & Hl & H & Hc).
      exists t, s', cs'. repeat split; auto.
      intros n q Hq. destruct (Hc n q Hq) as [|(r' & Hin & Hr')]; [auto|].
      right. exists r'. split; [apply in_or_app|]; auto.
  - destruct (run r s cs kont) eqn:H1.
    + intros [= ->]. apply IH in H1 as (t & s' & cs' & -> & Hl & H & Hc).
      exists t, s', cs'. repeat split; auto.
    + intros H. exists "", s, cs. auto.
  - intros H. apply IH in H as (t & s' & cs' & -> & Hl & H & Hc).
    rewrite length_append, Nat.add_sub, take_append in H.
    exists t, s', ((m, t) :: cs'). repeat split; auto.
    intros n q. cbn [capture]. destruct (n =? m) eqn:Hnm.
    + intros [= <-]. right. exists r. split; [left|]; auto.
    + intros Hq. destruct (Hc n q Hq) as [|(r' & Hin & Hr')]; eauto.
Qed.

Lemma exec_from_sound (r : regex) (s : string) :
  forall (idx : nat) (regexResult : result),
    exec_from r s idx = Some regexResult ->
    forall n q, capture n (groups regexResult) = Some q ->
                exists r', In r' (groupsOf n r) /\ Lang r' q.
Proof.
  induction s as [|c s IH]; intros idx regexResult; cbn [exec_from];
    (destruct (match_here r _) as [[rest cs]|] eqn:Hm;
     [intros [= <-]; cbn [groups];
      apply run_sound in Hm as (t & s' & cs' & _ & _ & [= <- <-] & Hc);
      intros n q Hq; destruct (Hc n q Hq) as [|]; [discriminate | assumption]
     |]).
  - discriminate.
  - apply IH.
Qed.

Lemma keepsGroups_refl (cs : captures) : keepsGroups cs cs.
Proof. intros n H. exact H. Qed.

Lemma keepsGroups_trans (a b c : captures) :
  keepsGroups a b -> keepsGroups b c -> keepsGroups a c.
Proof. intros Hab Hbc n H. auto. Qed.

Lemma keepsGroups_cons (cs : captures) (n : nat) (t : string) :
  keepsGroups cs ((n, t) :: cs).
Proof. intros m H. simpl. now destruct (m =? n). Qed.

(** A successful run reaches its continuation with every group of
    [alwaysSet] set and none of the earlier ones lost. *)
Lemma run_sets_groups {R : Type} (r : regex) :
  forall (s : string) (cs : captures)
         (kont : string -> captures -> option R) (x : R),
    run r s cs kont = Some x ->
    exists s' cs',
      kont s' cs' = Some x
      /\ keepsGroups cs cs'
      /\ (forall n, In n (alwaysSet r) -> capture n cs' <> None).
Proof.
  induction r as [| l | k min lazy | r1 IH1 r2 IH2 | r1 IH1 r2 IH2 | r IH
                 | n r IH];
    intros s cs kont x; cbn [run alwaysSet].
  - intros H. exists s, cs. auto using keepsGroups_refl.
  - destruct (lit_match l s) as [s'|]; [|discriminate].
    intros H. exists s', cs. auto using keepsGroups_refl.
  - destruct (rep_exact k min s) as [s1|]; [|discriminate].
    intros H.
    assert (Hk : exists s', kont s' cs = Some x).
    { destruct lazy; [apply rep_lazy_some in H | apply rep_greedy_some in H];
        exact H. }
    destruct Hk as [s' Hk]. exists s', cs. auto using keepsGroups_refl.
  - intros H. apply IH1 in H as (s1 & cs1 & H & Hkeep1 & Hset1).
    apply IH2 in H as (s2 & cs2 & H & Hkeep2 & Hset2).
    exists s2, cs2. split; [assumption|]. split.
    + eauto using keepsGroups_trans.
    + intros n Hin. apply in_app_or in Hin as [Hin | Hin]; auto.
  - destruct (run r1 s cs kont) eqn:H1.
    + intros [= ->]. apply IH1 in H1 as (s' & cs' & H & Hkeep & Hset).
      exists s', cs'. split; [assumption|]. split; [assumption|].
      intros n Hin. apply filter_In in Hin as [Hin _]. auto.
    + intros H2. apply IH2 in H2 as (s' & cs' & H & Hkeep & Hset).
      exists s', cs'. split; [assumption|]. split; [assumption|].
      intros n Hin. apply filter_In in Hin as [_ Hin].
      apply existsb_exists in Hin as (m & Hin & Heq).
      apply Nat.eqb_eq in Heq. subst m. auto.
  - destruct (run r s cs kont) eqn:H1.
    + intros [= ->]. apply IH in H1 as (s' & cs' & H & Hkeep & _).
      exists s', cs'. split; [assumption|]. split; [assumption|].
      intros n [].
    + intros H. exists s, cs. split; [assumption|].
      split; [apply keepsGroups_refl | intros n []].
  - intros H. apply IH in H as (s' & cs' & H & Hkeep & Hset).
    eexists s', (_ :: cs'). split; [exact H|]. split.
    + eauto using keepsGroups_trans, keepsGroups_cons.
    + intros m [<- | Hin]; simpl.
      * now rewrite Nat.eqb_refl.
      * destruct (m =? n); [discriminate | auto].
Qed.

Lemma exec_from_sets_groups (r : regex) (s : string) :
  forall (idx : nat) (regexResult : result),
    exec_from r s idx = Some regexResult ->
    forall n, In n (alwaysSet r) -> capture n (groups regexResult) <> None.
Proof.
  induction s as [|c s IH]; intros idx regexResult; cbn [exec_from];
    (destruct (match_here r _) as [[rest cs]|] eqn:Hm;
     [intros [= <-]; cbn [groups];
      apply run_sets_groups in Hm as (s' & cs' & [= <- <-] & _ & Hset);
      exact Hset |]).
  - discriminate.
  - apply IH.
Qed.

(** [regexResult[3]] of a Style A match and [regexResult[1]] of a Style B
    match are never undefined: [fileName] does not throw. *)
Lemma fileName_defined (content : string) (regexResult : result) :
  (exec COMMONMARK_PATTERN content = Some regexResult ->
   exists name, fileName regexResult 3 = ret (JS.trim name))
  /\ (exec MARKDOWN_IT_PATTERN content = Some regexResult ->
      exists name, fileName regexResult 1 = ret (JS.trim name)).
Proof.
  unfold fileName, exec. split; intros H.
  - apply exec_from_sets_groups with (n := 3) in H; [|simpl; auto].
    destruct (capture 3 _) as [name|]; [eauto | congruence].
  - apply exec_from_sets_groups with (n := 1) in H; [|simpl; auto].
    destruct (capture 1 _) as [name|]; [eauto | congruence].
Qed.

(** *** What the groups of a directive hold *)

(** Splits a character into its 256 cases and discards those that make
    the boolean hypothesis [H] false. *)
Ltac each_char H c :=
  destruct c as [[] [] [] [] [] [] [] []]; vm_compute in H;
  try discriminate H.

Lemma digit_facts (c : ascii) :
  JS.isDigit c = true ->
  JS.isWhiteSpace c = false
  /\ Ascii.eqb c "." = false
  /\ exists d, JS.digitValue c = Some d /\ (0 <= d < 10)%Z.
Proof.
  intros H. each_char H c; (split; [reflexivity|]); (split; [reflexivity|]);
    eexists; (split; [reflexivity|]); vm_compute; split; congruence.
Qed.

Lemma parseDigits_digits (digits : string) :
  forall acc, (0 <= acc)%Z -> allIn Digit digits = true ->
    exists n, JS.parseDigits 10 (Some acc) digits = Some n /\ (0 <= n)%Z.
Proof.
  induction digits as [|c digits IH]; intros acc Hacc;
    cbn [JS.parseDigits allIn cls_match]; [eauto|].
  intros H. apply andb_prop in H as [Hc H].
  destruct (digit_facts c Hc) as (_ & _ & d & -> & Hd).
  destruct (Z.ltb_spec d 10); [|lia]. apply IH; [lia | assumption].
Qed.

Lemma parseDigits_start (c : ascii) (rest : string) :
  JS.isDigit c = true -> allIn Digit rest = true ->
  exists n, JS.parseDigits 10 None (String c rest) = Some n /\ (0 <= n)%Z.
Proof.
  intros Hc Hrest. cbn [JS.parseDigits].
  destruct (digit_facts c Hc) as (_ & _ & d & -> & Hd).
  destruct (Z.ltb_spec d 10); [|lia].
  apply parseDigits_digits; [lia | assumption].
Qed.

(** A non-empty string of decimal digits parses to its value. *)
Lemma parseInt_digits (digits : string) :
  digits <> "" -> allIn Digit digits = true ->
  exists n, JS.parseInt digits = JS.Num n /\ (0 <= n)%Z.
Proof.
  destruct digits as [|c rest]; [congruence|]. intros _ H.
  cbn [allIn cls_match] in H. apply andb_prop in H as [Hc Hrest].
  destruct (parseDigits_start c rest Hc Hrest) as (n & Hn & Hn0).
  exists n. split; [|assumption].
  destruct (digit_facts c Hc) as (Hws & _ & _).
  unfold JS.parseInt. cbn [JS.trimStart]. rewrite Hws.
  destruct rest as [|c2 rest'].
  - each_char Hc c; cbv beta iota zeta; now rewrite Hn.
  - cbn [allIn cls_match] in Hrest. apply andb_prop in Hrest as [Hc2 _].
    each_char Hc c; cbv beta iota zeta; try (now rewrite Hn).
    each_char Hc2 c2; cbv beta iota zeta; now rewrite Hn.
Qed.

Lemma splitOn_digits (digits : string) :
  allIn Digit digits = true -> JS.splitOn "." digits = [digits].
Proof.
  induction digits as [|c digits IH]; [reflexivity|].
  cbn [allIn cls_match JS.splitOn]. intros H. apply andb_prop in H as [Hc H].
  destruct (digit_facts c Hc) as (_ & -> & _). now rewrite IH.
Qed.

Lemma splitOn_digits_dot (digits rest : string) :
  allIn Digit digits = true ->
  JS.splitOn "." (digits ++ String "." rest) = digits :: JS.splitOn "." rest.
Proof.
  induction digits as [|c digits IH]; [reflexivity|].
  cbn [allIn cls_match]. intros H. apply andb_prop in H as [Hc H].
  change (String c digits ++ String "." rest)
    with (String c (digits ++ String "." rest)).
  cbn [JS.splitOn]. destruct (digit_facts c Hc) as (_ & -> & _).
  now rewrite IH.
Qed.

Lemma litEq_dot (t : string) : litEq "." t = true -> t = ".".
Proof.
  destruct t as [|c [|c2 t]]; try discriminate.
  - cbn [litEq]. rewrite andb_true_r. intros H. now each_char H c.
  - cbn [litEq]. now rewrite andb_false_r.
Qed.

Lemma nonempty_of_length (t : string) : 1 <= String.length t -> t <> "".
Proof. destruct t; simpl; [lia | discriminate]. Qed.

(** The texts of [LINE_SPEC] are well-formed range specs. *)
Lemma LINE_SPEC_wellFormed (spec : string) :
  Lang LINE_SPEC spec -> wellFormedSpec spec.
Proof.
  cbn [LINE_SPEC Seq fold_right Lang].
  intros (line & tail & -> & [Hline Hlen] & (opt & e & -> & Hopt & ->)).
  rewrite append_empty_r.
  destruct (parseInt_digits line (nonempty_of_length _ Hlen) Hline)
    as (n & Hn & Hn0).
  assert (Hne : forall t, line ++ t <> "").
  { intros t. destruct line; [simpl in Hlen; lia | discriminate]. }
  destruct Hopt as [-> | (dot & t & -> & Hdot & (word & e & -> & [Hw Hwl] & ->))].
  - rewrite append_empty_r. unfold wellFormedSpec, specLine, specWord.
    rewrite splitOn_digits by assumption. cbn [nth List.length Nat.ltb Nat.leb].
    split; [apply (nonempty_of_length _ Hlen)|]. split; eauto.
  - apply litEq_dot in Hdot. subst dot. rewrite append_empty_r.
    destruct (parseInt_digits word (nonempty_of_length _ Hwl) Hw)
      as (w & Hword & Hw0).
    unfold wellFormedSpec, specLine, specWord.
    change ("." ++ word) with (String "." word).
    rewrite splitOn_digits_dot, splitOn_digits by assumption.
    cbn [nth List.length Nat.ltb Nat.leb].
    split; [apply Hne|]. split; [eauto|].
    right. exists w. now rewrite Hword.
Qed.

Lemma lower_of_canonical (a c : ascii) :
  In a (list_ascii_of_string "noquet") ->
  Ascii.eqb (canonicalize a) (canonicalize c) = true ->
  JS.lowerChar c = a.
Proof.
  cbn [list_ascii_of_string In].
  intros [<- | [<- | [<- | [<- | [<- | [<- | []]]]]]] H;
    each_char H c; reflexivity.
Qed.

Lemma litEq_lower (l t : string) :
  (forall a, In a (list_ascii_of_string l) ->
             In a (list_ascii_of_string "noquet")) ->
  litEq l t = true -> JS.toLowerCase t = l.
Proof.
  revert t. induction l as [|a l IH]; intros [|c t] Hl; try discriminate;
    [reflexivity|].
  cbn [litEq JS.toLowerCase]. intros H. apply andb_prop in H as [Hc H].
  rewrite (lower_of_canonical a c); [|apply Hl; now left | assumption].
  rewrite IH; [reflexivity | | assumption].
  intros b Hb. apply Hl. now right.
Qed.

(** Whatever directive either pattern finds, the range specs it captured
    are well formed and the modifier it captured is [quote] or [noquote]
    up to letter case. *)
Lemma directive_groups (content : string) (regexResult : result) :
  let wellFormed n :=
    forall spec, capture n (groups regexResult) = Some spec ->
                 wellFormedSpec spec in
  let modifier n :=
    forall q, capture n (groups regexResult) = Some q ->
              JS.toLowerCase q = "quote" \/ JS.toLowerCase q = "noquote" in
  (exec COMMONMARK_PATTERN content = Some regexResult ->
   wellFormed 4 /\ wellFormed 5 /\ modifier 6)
  /\ (exec MARKDOWN_IT_PATTERN content = Some regexResult ->
      wellFormed 2 /\ wellFormed 3 /\ modifier 4).
Proof.
  assert (Hspec : forall r n spec,
             exec r content = Some regexResult ->
             groupsOf n r = [LINE_SPEC] ->
             capture n (groups regexResult) = Some spec ->
             wellFormedSpec spec).
  { intros r n spec Hex Hg Hc.
    destruct (exec_from_sound r content 0 regexResult Hex n spec Hc)
      as (r' & Hin & Hl).
    rewrite Hg in Hin. destruct Hin as [<- | []].
    now apply LINE_SPEC_wellFormed. }
  assert (Hmod : forall r n q,
             exec r content = Some regexResult ->
             groupsOf n r = [Alt (Lit "noquote") (Lit "quote")] ->
             capture n (groups regexResult) = Some q ->
             JS.toLowerCase q = "quote" \/ JS.toLowerCase q = "noquote").
  { intros r n q Hex Hg Hc.
    destruct (exec_from_sound r content 0 regexResult Hex n q Hc)
      as (r' & Hin & Hl).
    rewrite Hg in Hin. destruct Hin as [<- | []].
    destruct Hl as [Hl | Hl]; [right | left];
      (apply litEq_lower; [|exact Hl]);
      cbn [list_ascii_of_string In]; intuition. }
  intros wellFormed modifier. split; intros Hex; (split; [|split]);
    intros x Hx;
    solve [eapply Hspec; [exact Hex | | exact Hx]; reflexivity
          | eapply Hmod; [exact Hex | | exact Hx]; reflexivity].
Qed.

(** ** Effects *)

Lemma bind_done {A B : Type} (m : M A) (f : A -> M B) (b : B) (log : list event) :
  bind m f = (Done b, log) ->
  exists a l1 l2,
    m = (Done a, l1) /\ f a = (Done b, l2) /\ log = (l1 ++ l2)%list.
Proof.
  destruct m as [[a | e |] l1]; simpl; try discriminate.
  destruct (f a) as [r l2] eqn:Hf. intros [= -> <-].
  now exists a, l1, l2.
Qed.

Lemma bind_ret_l {A B : Type} (a : A) (f : A -> M B) : bind (ret a) f = f a.
Proof. unfold bind, ret. now destruct (f a). Qed.

(** ** String replacement *)

Lemma drop_plus (a b : nat) (s : string) :
  JS.drop (a + b) s = JS.drop b (JS.drop a s).
Proof.
  revert s. induction a as [|a IH]; intros s; simpl; [reflexivity|].
  destruct s; [now destruct b | apply IH].
Qed.

Lemma getSubstitution_dollarFree (matched before after replacement : string) :
  dollarFree replacement = true ->
  JS.getSubstitution matched before after replacement = replacement.
Proof.
  induction replacement as [|c r IH]; simpl; [reflexivity|].
  destruct (Ascii.eqb c "$"); simpl; [discriminate|].
  intros H. now rewrite IH.
Qed.

(** Only the span of the first occurrence changes; the text before it and
    the text after it, further occurrences included, stay as they are. *)
Lemma replace_first_occurrence (s pat replacement pre post : string) :
  firstOccurrence pat s pre post ->
  exists filled,
    JS.replace s pat replacement = pre ++ filled ++ post
    /\ (dollarFree replacement = true -> filled = replacement).
Proof.
  intros [-> Hidx]. unfold JS.replace. rewrite Hidx.
  rewrite take_append, drop_plus, drop_append, drop_append.
  eexists. split; [reflexivity|]. apply getSubstitution_dollarFree.
Qed.

(** ** One resolution step *)

Section Replace.
Variable h : Host.
Variable settings : IncludeSettings.
Variable expand : string -> string -> option (list string) -> M string.
Variables (regexResult : result) (parentContent parentFolder parentFile : string).
Variables (childName notFound circular : string).
Variable processedFiles : list string.
Variables startLine endLine quoteOverride : option string.

Lemma replace_not_found :
  disk h (resolve h parentFolder childName) = None ->
  replace h settings expand regexResult parentContent parentFolder parentFile
    childName notFound circular processedFiles startLine endLine quoteOverride
  = (Done (splice parentContent regexResult
             (JS.replace notFound "{{FILE}}" (resolve h parentFolder childName))),
     [ExistsSync (resolve h parentFolder childName) false]).
Proof.
  intros H. unfold replace, existsSync. now rewrite H.
Qed.

Lemma replace_circular (e : entry) :
  disk h (resolve h parentFolder childName) = Some e ->
  processed processedFiles (resolve h parentFolder childName) = true ->
  replace h settings expand regexResult parentContent parentFolder parentFile
    childName notFound circular processedFiles startLine endLine quoteOverride
  = (Done (splice parentContent regexResult
             (JS.replace (JS.replace circular "{{FILE}}" (resolve h parentFolder childName))
                "{{PARENT}}" parentFile)),
     [ExistsSync (resolve h parentFolder childName) true]).
Proof.
  intros H Hp. unfold replace, existsSync.
  rewrite H. simpl. now rewrite Hp.
Qed.

Lemma replace_included (original expanded : string) (log : list event) :
  disk h (resolve h parentFolder childName) = Some (File original) ->
  processed processedFiles (resolve h parentFolder childName) = false ->
  expand (sliceLines original startLine endLine) (resolve h parentFolder childName)
    (Some processedFiles) = (Done expanded, log) ->
  replace h settings expand regexResult parentContent parentFolder parentFile
    childName notFound circular processedFiles startLine endLine quoteOverride
  = (Done (splice parentContent regexResult
             (if shouldQuote settings quoteOverride
              then formatQuote h expanded (resolve h parentFolder childName) (sourceLabelOf settings)
                     (includeSourceOf settings) startLine (Some original)
              else expanded)),
     ExistsSync (resolve h parentFolder childName) true :: ReadFileSync (resolve h parentFolder childName) :: log).
Proof.
  intros H Hp Hex. unfold replace, existsSync, readFileSync.
  rewrite H. simpl. rewrite Hp, Hex. simpl.
  destruct (shouldQuote settings quoteOverride); simpl;
    now rewrite !app_nil_r.
Qed.
End Replace.

(** C10.  The text put in place of a directive whose target is missing or
    already on the inclusion chain is the filled-in message and nothing
    more: whatever the quote settings and the directive's modifier, no
    block quote and no citation is added and the target is not read.
    [formatQuote] is reached only with content that was read and expanded.
    In [lonely_root] both directives carry [{quote}] and quoting is on
    globally, and both messages come out bare. *)
Theorem error_texts_never_quoted :
  (forall h settings expand regexResult parentContent parentFolder parentFile
          childName notFound circular processedFiles startLine endLine
          quoteOverride,
      let childFile := resolve h parentFolder childName in
      let step :=
        replace h settings expand regexResult parentContent parentFolder
          parentFile childName notFound circular processedFiles startLine
          endLine quoteOverride in
      (disk h childFile = None ->
       step = (Done (splice parentContent regexResult
                       (JS.replace notFound "{{FILE}}" childFile)),
               [ExistsSync childFile false]))
      /\ (disk h childFile <> None ->
          processed processedFiles childFile = true ->
          step = (Done (splice parentContent regexResult
                          (JS.replace
                             (JS.replace circular "{{FILE}}" childFile)
                             "{{PARENT}}" parentFile)),
                  [ExistsSync childFile true]))
      /\ (forall original expanded log,
             disk h childFile = Some (File original) ->
             processed processedFiles childFile = false ->
             expand (sliceLines original startLine endLine) childFile
               (Some processedFiles) = (Done expanded, log) ->
             step = (Done (splice parentContent regexResult
                             (if shouldQuote settings quoteOverride
                              then formatQuote h expanded childFile
                                     (sourceLabelOf settings)
                                     (includeSourceOf settings) startLine
                                     (Some original)
                              else expanded)),
                     ExistsSync childFile true :: ReadFileSync childFile :: log)))
  /\ execute lonely_host (quote_settings true true) 5 lonely_root "/d/root.md"
       None
     = (Done ("File '/d/x.md' not found|"
              ++ "Circular reference between '/d/root.md' and '/d/root.md'"),
        [Enter "/d/root.md" ["/d/root.md"]; ExistsSync "/d/x.md" false;
         ExistsSync "/d/root.md" true; Leave]).
Proof.
  split; [|reflexivity].
  intros h settings expand regexResult parentContent parentFolder parentFile
    childName notFound circular processedFiles startLine endLine quoteOverride
    childFile step.
  split; [|split].
  - apply replace_not_found.
  - intros Hd. destruct (disk h childFile) as [e|] eqn:He; [|congruence].
    now apply replace_circular with (e := e).
  - intros original expanded log. apply replace_included.
Qed.

Lemma error_texts_never_quoted_witness :
  replace lonely_host (quote_settings true true) (fun _ _ _ => ret "")
    (mkResult 0 ":(x.md){quote}" []) ":(x.md){quote}" "/d" "/d/root.md"
    "x.md" "no {{FILE}}" "" ["/d/root.md"] None None (Some "quote")
  = (Done "no /d/x.md", [ExistsSync "/d/x.md" false]).
Proof.
  exact (proj1 (proj1 error_texts_never_quoted lonely_host
                  (quote_settings true true) (fun _ _ _ => ret "")
                  (mkResult 0 ":(x.md){quote}" []) ":(x.md){quote}" "/d"
                  "/d/root.md" "x.md" "no {{FILE}}" "" ["/d/root.md"] None
                  None (Some "quote")) eq_refl).
Defined.

(** With [{{FILE}}] before [{{PARENT}}] in the template, as in the default
    one, and paths that bring in neither a dollar sign nor an earlier
    [{{PARENT}}], both placeholders are filled where the template has them. *)
Lemma circular_message_filled (template pre mid post child parent : string) :
  firstOccurrence "{{FILE}}" template pre (mid ++ "{{PARENT}}" ++ post) ->
  firstOccurrence "{{PARENT}}" (pre ++ child ++ mid ++ "{{PARENT}}" ++ post)
    (pre ++ child ++ mid) post ->
  dollarFree child = true -> dollarFree parent = true ->
  JS.replace (JS.replace template "{{FILE}}" child) "{{PARENT}}" parent
  = pre ++ child ++ mid ++ parent ++ post.
Proof.
  intros Hfile Hparent Hc Hp.
  destruct (replace_first_occurrence _ _ child _ _ Hfile) as (f1 & -> & Hf1).
  rewrite (Hf1 Hc).
  destruct (replace_first_occurrence _ _ parent _ _ Hparent) as (f2 & -> & Hf2).
  rewrite (Hf2 Hp). now rewrite !append_assoc.
Qed.

(** How the messages are filled in.  [String.prototype.replace] on a
    string pattern rewrites the span of the first occurrence of the
    placeholder and nothing else: the text before and after that span,
    later occurrences of the placeholder included, is kept.  For the
    circular message the [{{PARENT}}] replacement acts in the same way on
    the text the [{{FILE}}] replacement produced, file name included; with
    [{{FILE}}] before [{{PARENT}}] in the template and paths that bring in
    neither a dollar sign nor an earlier [{{PARENT}}], both are filled
    where the template has them.  With every placeholder doubled in the
    templates, the second copies survive. *)
Lemma first_occurrence_filled :
  (forall s pat replacement pre post,
      firstOccurrence pat s pre post ->
      exists filled,
        JS.replace s pat replacement = pre ++ filled ++ post
        /\ (dollarFree replacement = true -> filled = replacement))
  /\ (forall template pre mid post child parent,
         firstOccurrence "{{FILE}}" template pre (mid ++ "{{PARENT}}" ++ post) ->
         firstOccurrence "{{PARENT}}"
           (pre ++ child ++ mid ++ "{{PARENT}}" ++ post)
           (pre ++ child ++ mid) post ->
         dollarFree child = true -> dollarFree parent = true ->
         JS.replace (JS.replace template "{{FILE}}" child) "{{PARENT}}" parent
         = pre ++ child ++ mid ++ parent ++ post)
  /\ (forall h settings expand regexResult parentContent parentFolder
             parentFile childName notFound circular processedFiles startLine
             endLine quoteOverride,
         let childFile := resolve h parentFolder childName in
         let step :=
           replace h settings expand regexResult parentContent parentFolder
             parentFile childName notFound circular processedFiles startLine
             endLine quoteOverride in
         (disk h childFile = None ->
          fst step = Done (splice parentContent regexResult
                             (JS.replace notFound "{{FILE}}" childFile)))
         /\ (disk h childFile <> None ->
             processed processedFiles childFile = true ->
             fst step = Done (splice parentContent regexResult
                                (JS.replace
                                   (JS.replace circular "{{FILE}}" childFile)
                                   "{{PARENT}}" parentFile))))
  /\ fst (execute lonely_host
            (message_settings "{{FILE}} or {{FILE}}"
               "{{FILE}} {{FILE}} {{PARENT}} {{PARENT}}")
            5 lonely_root "/d/root.md" None)
     = Done ("/d/x.md or {{FILE}}|"
             ++ "/d/root.md {{FILE}} /d/root.md {{PARENT}}").
Proof.
  split; [|split; [|split; [|reflexivity]]].
  - intros s pat replacement pre post. apply replace_first_occurrence.
  - apply circular_message_filled.
  - intros h settings expand regexResult parentContent parentFolder parentFile
      childName notFound circular processedFiles startLine endLine
      quoteOverride childFile step.
    split.
    + intros Hd. unfold step. now rewrite replace_not_found.
    + intros Hd Hp. destruct (disk h childFile) as [e|] eqn:He; [|congruence].
      unfold step. now rewrite replace_circular with (e := e).
Qed.

(** C9 at a failing input.  The document [/d/{{PARENT}}.md] includes
    [a.md], which includes it back.  The circular message is built from the
    default template by two replacements in a row, and the second one
    looks for [{{PARENT}}] in the output of the first, the file name just
    put in included: the first occurrence of [{{PARENT}}] is then the one
    inside the file name, that one is exchanged for the parent file, and
    the [{{PARENT}}] of the template, its only one, reaches the document
    unfilled. *)
Theorem parent_placeholder_filled_in_file_name :
  JS.replace DEFAULT_CIRCULAR_MESSAGE "{{FILE}}" "/d/{{PARENT}}.md"
  = "Circular reference between '/d/{{PARENT}}.md' and '{{PARENT}}'"
  /\ JS.replace
       (JS.replace DEFAULT_CIRCULAR_MESSAGE "{{FILE}}" "/d/{{PARENT}}.md")
       "{{PARENT}}" "/d/a.md"
     = "Circular reference between '/d//d/a.md.md' and '{{PARENT}}'"
  /\ execute placeholder_host no_settings 5 ":(a.md)" "/d/{{PARENT}}.md" None
     = (Done "Circular reference between '/d//d/a.md.md' and '{{PARENT}}'",
        [Enter "/d/{{PARENT}}.md" ["/d/{{PARENT}}.md"];
         ExistsSync "/d/a.md" true; ReadFileSync "/d/a.md";
         Enter "/d/a.md" ["/d/{{PARENT}}.md"; "/d/a.md"];
         ExistsSync "/d/{{PARENT}}.md" true; Leave; Leave]).
Proof. repeat split; reflexivity. Qed.

(** ** Quote mode *)

Lemma shouldQuote_override (settings : IncludeSettings) (q : string) :
  (JS.toLowerCase q = "quote" -> shouldQuote settings (Some q) = true)
  /\ (JS.toLowerCase q = "noquote" -> shouldQuote settings (Some q) = false).
Proof.
  destruct q as [|c q]; [split; discriminate|].
  unfold shouldQuote. cbn [JS.truthy orDefault].
  split; intros ->; reflexivity.
Qed.

Lemma quoteLine_cases (line : string) :
  (JS.trim line <> "" -> quoteLine line = "> " ++ line)
  /\ (JS.trim line = "" -> quoteLine line = ">").
Proof.
  unfold quoteLine. destruct (JS.trim line); split; intro H;
    solve [reflexivity | congruence].
Qed.

Lemma formatQuote_shape (h : Host) (content path label : string)
    (includeSource : bool) (startLine original : option string) :
  exists citation,
    formatQuote h content path label includeSource startLine original
    = JS.join JS.nl (map quoteLine (JS.splitLines content))
      ++ (if includeSource
          then JS.nl ++ "> " ++ JS.nl ++ "> " ++ citation else "").
Proof.
  unfold formatQuote. destruct includeSource; cbn [negb].
  - destruct (citationPosition startLine original) as [l c].
    eexists. reflexivity.
  - exists "". now rewrite append_empty_r.
Qed.

(** C6 (as amended).  A [{quote}] modifier, in any letter case, makes the
    step quote the expanded child whatever the global setting, and
    [{noquote}] makes it splice the expanded child as it is; a modifier
    captured by either pattern is one of the two.  The quoted
    block is the child's lines, each non-blank line prefixed with the
    marker and a space and each blank line replaced by the bare marker,
    followed by the two citation lines when citations are on.  With the
    global setting off, [{quote}] on the three-line [gapped] file gives
    the marker alone on the middle line; with the global setting on,
    [{noquote}] gives the file as it is. *)
Theorem quote_override_and_marker :
  (forall h settings expand regexResult parentContent parentFolder parentFile
          childName notFound circular processedFiles startLine endLine q
          original expanded log,
      let childFile := resolve h parentFolder childName in
      let step :=
        replace h settings expand regexResult parentContent parentFolder
          parentFile childName notFound circular processedFiles startLine
          endLine (Some q) in
      disk h childFile = Some (File original) ->
      processed processedFiles childFile = false ->
      expand (sliceLines original startLine endLine) childFile
        (Some processedFiles) = (Done expanded, log) ->
      (JS.toLowerCase q = "quote" ->
       fst step
       = Done (splice parentContent regexResult
                 (formatQuote h expanded childFile (sourceLabelOf settings)
                    (includeSourceOf settings) startLine (Some original))))
      /\ (JS.toLowerCase q = "noquote" ->
          fst step = Done (splice parentContent regexResult expanded)))
  /\ (forall content regexResult q,
         (exec COMMONMARK_PATTERN content = Some regexResult ->
          capture 6 (groups regexResult) = Some q ->
          JS.toLowerCase q = "quote" \/ JS.toLowerCase q = "noquote")
         /\ (exec MARKDOWN_IT_PATTERN content = Some regexResult ->
             capture 4 (groups regexResult) = Some q ->
             JS.toLowerCase q = "quote" \/ JS.toLowerCase q = "noquote"))
  /\ (forall h content path label includeSource startLine original,
         exists citation,
           formatQuote h content path label includeSource startLine original
           = JS.join JS.nl (map quoteLine (JS.splitLines content))
             ++ (if includeSource
                 then JS.nl ++ "> " ++ JS.nl ++ "> " ++ citation else ""))
  /\ (forall line,
         (JS.trim line <> "" -> quoteLine line = "> " ++ line)
         /\ (JS.trim line = "" -> quoteLine line = ">"))
  /\ fst (execute gapped_host (quote_settings false false) 5
            ":(a.md){Quote}" "/d/root.md" None)
     = Done ("> a" ++ JS.nl ++ ">" ++ JS.nl ++ "> b")
  /\ fst (execute gapped_host (quote_settings true false) 5
            ":(a.md){noquote}" "/d/root.md" None)
     = Done gapped.
Proof.
  split; [|split; [|split; [|split; [|split; reflexivity]]]].
  - intros h settings expand regexResult parentContent parentFolder parentFile
      childName notFound circular processedFiles startLine endLine q original
      expanded log childFile step Hd Hp Hex.
    unfold step.
    rewrite (replace_included h settings expand regexResult parentContent
               parentFolder parentFile childName notFound circular
               processedFiles startLine endLine (Some q) original expanded log
               Hd Hp Hex).
    destruct (shouldQuote_override settings q) as [Hq Hn].
    split; intros Hlow; cbn [fst]; [now rewrite Hq | now rewrite Hn].
  - intros content regexResult q.
    destruct (directive_groups content regexResult) as [HA HB].
    split; intros Hex Hq.
    + now apply (proj2 (proj2 (HA Hex))).
    + now apply (proj2 (proj2 (HB Hex))).
  - apply formatQuote_shape.
  - apply quoteLine_cases.
Qed.

Lemma quote_override_and_marker_witness :
  fst (replace gapped_host (quote_settings false false)
         (fun content _ _ => ret content)
         (mkResult 0 ":(a.md){QUOTE}" []) ":(a.md){QUOTE}" "/d" "/d/root.md"
         "a.md" "" "" ["/d/root.md"] None None (Some "QUOTE"))
  = Done ("> a" ++ JS.nl ++ ">" ++ JS.nl ++ "> b").
Proof.
  exact (proj1 (proj1 quote_override_and_marker gapped_host
                  (quote_settings false false)
                  (fun content _ _ => ret content)
                  (mkResult 0 ":(a.md){QUOTE}" []) ":(a.md){QUOTE}" "/d"
                  "/d/root.md" "a.md" "" "" ["/d/root.md"] None None "QUOTE"
                  gapped gapped [] eq_refl eq_refl eq_refl) eq_refl).
Defined.

(** C6 as the spec words it: every line of the quoted child would start
    with the marker and a space. *)
Lemma blank_line_gets_bare_marker :
  exists out,
    fst (execute gapped_host (quote_settings false false) 5
           ":(a.md){quote}" "/d/root.md" None) = Done out
    /\ forallb (String.prefix "> ") (JS.splitLines out) = false.
Proof. eexists. split; reflexivity. Qed.

(** ** The two loops *)

Lemma bind_emit {A : Type} (e : event) (m : M A) :
  (emit e ;;; m) = (fst m, e :: snd m).
Proof. unfold bind, emit. now destruct m. Qed.

Lemma execute_S (h : Host) (settings : IncludeSettings) (fuel : nat)
    (parentContent parentFile : string) (processedFiles : option (list string)) :
  execute h settings (S fuel) parentContent parentFile processedFiles
  = let chain := (orDefault processedFiles [] ++ [parentFile])%list in
    let step :=
      resolveDirective h settings (execute h settings fuel)
        (dirname h parentFile) parentFile chain in
    emit (Enter parentFile chain) ;;;
    (parentContent <-
       (if commonmarkEnabled settings
        then scan fuel COMMONMARK_PATTERN (step 3 4 5 6) parentContent
        else ret parentContent) ;;
     parentContent <-
       (if markdownItEnabled settings
        then scan fuel MARKDOWN_IT_PATTERN (step 1 2 3 4) parentContent
        else ret parentContent) ;;
     emit Leave ;;; ret parentContent).
Proof. reflexivity. Qed.

Lemma scan_no_match (fuel : nat) (pattern : regex)
    (step : result -> string -> M string) (content : string) :
  exec pattern content = None ->
  scan (S fuel) pattern step content = ret content.
Proof. intros H. simpl. now rewrite H. Qed.

(** A loop that ends leaves no match of its pattern behind, and used fuel. *)
Lemma scan_done (fuel : nat) (pattern : regex)
    (step : result -> string -> M string) (content r : string)
    (log : list event) :
  scan fuel pattern step content = (Done r, log) ->
  exec pattern r = None /\ 1 <= fuel.
Proof.
  revert content log. induction fuel as [|fuel IH]; intros content log;
    simpl; [discriminate|].
  destruct (exec pattern content) as [regexResult|] eqn:Hex.
  - intros H. apply bind_done in H as (c' & l1 & l2 & _ & H & _).
    apply IH in H. split; [tauto | lia].
  - intros [= <- _]. split; [assumption | lia].
Qed.

Lemma execute_clean (h : Host) (settings : IncludeSettings) (fuel : nat)
    (content file : string) (processedFiles : option (list string)) :
  (commonmarkEnabled settings = true ->
   exec COMMONMARK_PATTERN content = None /\ 1 <= fuel) ->
  (markdownItEnabled settings = true ->
   exec MARKDOWN_IT_PATTERN content = None /\ 1 <= fuel) ->
  execute h settings (S fuel) content file processedFiles
  = (Done content,
     [Enter file (orDefault processedFiles [] ++ [file])%list; Leave]).
Proof.
  intros HA HB. rewrite execute_S. cbv zeta.
  assert (Hscan : forall pattern step,
             exec pattern content = None /\ 1 <= fuel ->
             scan fuel pattern step content = ret content).
  { intros pattern step [Hex Hf]. destruct fuel as [|fuel]; [lia|].
    now apply scan_no_match. }
  destruct (commonmarkEnabled settings);
    [rewrite Hscan by auto|]; rewrite bind_ret_l;
    (destruct (markdownItEnabled settings);
     [rewrite Hscan by auto|]; rewrite bind_ret_l);
    reflexivity.
Qed.

Lemma execute_done (h : Host) (settings : IncludeSettings) (fuel : nat)
    (content file r : string) (processedFiles : option (list string))
    (log : list event) :
  execute h settings fuel content file processedFiles = (Done r, log) ->
  exists fuel',
    fuel = S fuel'
    /\ (markdownItEnabled settings = true ->
        exec MARKDOWN_IT_PATTERN r = None /\ 1 <= fuel')
    /\ (commonmarkEnabled settings = true ->
        1 <= fuel'
        /\ (markdownItEnabled settings = false ->
            exec COMMONMARK_PATTERN r = None)).
Proof.
  destruct fuel as [|fuel]; [discriminate|]. rewrite execute_S. cbv zeta.
  rewrite bind_emit. intros H. exists fuel. split; [reflexivity|].
  injection H as H _.
  match type of H with fst ?m = _ => destruct m as [o l] eqn:Hm end.
  cbn [fst] in H. subst o.
  apply bind_done in Hm as (c1 & l1 & l2 & HA & Hm & _).
  apply bind_done in Hm as (c2 & l3 & l4 & HB & Hm & _).
  injection Hm as -> _.
  split.
  - intros Hon. rewrite Hon in HB. now apply scan_done in HB.
  - intros Hon. rewrite Hon in HA. apply scan_done in HA as [HA Hf].
    split; [assumption|]. intros Hoff. rewrite Hoff in HB.
    now injection HB as <- _.
Qed.

(** C7 (as amended).  A text in which neither enabled pattern finds a
    directive is returned as it is (two units of fuel are enough, and the
    only events are the entry to and exit from [execute]).  Whenever a run
    ends, the Style B loop has left no Style B directive in its result
    and, when Style B is off, the Style A loop has left no Style A
    directive: with at most one style on, a second run on the result of
    the first returns it unchanged, for every input.  With both styles on
    it does so when the first result holds no Style A directive. *)
Theorem clean_text_unchanged_and_one_style_stable :
  (forall h settings fuel content file processedFiles,
      2 <= fuel ->
      (commonmarkEnabled settings = true ->
       exec COMMONMARK_PATTERN content = None) ->
      (markdownItEnabled settings = true ->
       exec MARKDOWN_IT_PATTERN content = None) ->
      execute h settings fuel content file processedFiles
      = (Done content,
         [Enter file (orDefault processedFiles [] ++ [file])%list; Leave]))
  /\ (forall h settings fuel content file processedFiles r log,
         execute h settings fuel content file processedFiles = (Done r, log) ->
         (markdownItEnabled settings = true ->
          exec MARKDOWN_IT_PATTERN r = None)
         /\ (commonmarkEnabled settings = true ->
             markdownItEnabled settings = false ->
             exec COMMONMARK_PATTERN r = None)
         /\ (commonmarkEnabled settings = false
             \/ markdownItEnabled settings = false ->
             forall processedFiles',
               execute h settings fuel r file processedFiles'
               = (Done r,
                  [Enter file (orDefault processedFiles' [] ++ [file])%list;
                   Leave]))
         /\ (exec COMMONMARK_PATTERN r = None ->
             forall processedFiles',
               execute h settings fuel r file processedFiles'
               = (Done r,
                  [Enter file (orDefault processedFiles' [] ++ [file])%list;
                   Leave]))).
Proof.
  split.
  - intros h settings fuel content file processedFiles Hfuel HA HB.
    destruct fuel as [|fuel]; [lia|].
    apply execute_clean; intros Hon; (split; [auto | lia]).
  - intros h settings fuel content file processedFiles r log Hrun.
    apply execute_done in Hrun as (fuel' & -> & HB & HA).
    assert (Hstable : (commonmarkEnabled settings = true ->
                       exec COMMONMARK_PATTERN r = None) ->
                      forall processedFiles',
                        execute h settings (S fuel') r file processedFiles'
                        = (Done r,
                           [Enter file
                              (orDefault processedFiles' [] ++ [file])%list;
                            Leave])).
    { intros Hclean processedFiles'. apply execute_clean.
      - intros Hon. split; [auto | apply (HA Hon)].
      - intros Hon. now apply HB. }
    split; [intros Hon; apply (HB Hon)|].
    split; [intros Hon Hoff; now apply (HA Hon)|].
    split.
    + intros Hone. apply Hstable. intros Hon.
      destruct Hone as [Hoff | Hoff]; [congruence | now apply (HA Hon)].
    + intros Hclean. apply Hstable. auto.
Qed.

Lemma clean_text_unchanged_and_one_style_stable_witness :
  execute note_host style_B_only 5 "Note:(see above)" "/d/root.md" None
  = (Done "Note:(see above)", [Enter "/d/root.md" ["/d/root.md"]; Leave]).
Proof.
  exact (proj1 (proj2 (proj2
           (proj2 clean_text_unchanged_and_one_style_stable note_host
              style_B_only 5 note_root "/d/root.md" None "Note:(see above)"
              [Enter "/d/root.md" ["/d/root.md"]; ExistsSync "/d/a.md" true;
               ReadFileSync "/d/a.md";
               Enter "/d/a.md" ["/d/root.md"; "/d/a.md"]; Leave; Leave]
              eq_refl)))
           (or_introl eq_refl) None).
Defined.

(** C7 as the spec words it: a second run on the same root would give what
    the first gave.  With both styles on, the document [note_root] becomes
    [Note:(see above)] in the first run, the Style B loop putting the
    file's opening parenthesis right after the colon when the Style A loop
    is over; the second run reads that as a Style A directive for a file
    that is not there. *)
Lemma second_run_expands_leaked_directive :
  fst (execute note_host no_settings 5 note_root "/d/root.md" None)
  = Done "Note:(see above)"
  /\ fst (execute note_host no_settings 5 "Note:(see above)" "/d/root.md" None)
     = Done "NoteFile '/d/see above' not found"
  /\ "Note:(see above)" <> "NoteFile '/d/see above' not found"
  /\ exec COMMONMARK_PATTERN note_root = None.
Proof. repeat split; try reflexivity. discriminate. Qed.

(** With both styles on, the Style B loop can leave a Style A directive
    behind; a second run then expands it. *)
Example second_run_after_glued_directive :
  fst (execute glued_host no_settings 5 glued "/d/root.md" None)
  = Done ":(b.md)"
  /\ fst (execute glued_host no_settings 5 ":(b.md)" "/d/root.md" None)
     = Done "B".
Proof. split; reflexivity. Qed.

(** ** The processed-files list along the inclusion chain *)











Lemma processed_In (chain : list string) (file : string) :
  processed chain file = true <-> In file chain.
Proof.
  unfold processed. rewrite existsb_exists. split.
  - intros (x & Hin & Heq). apply String.eqb_eq in Heq. now subst.
  - intros Hin. exists file. split; [assumption | apply String.eqb_refl].
Qed.



(** ** The citation column *)

Lemma walkWords_consumed (words : list string) :
  forall (k : nat) (i charPos : Z),
    walkWords (JS.Num (i + Z.of_nat k)) i words charPos
    = (charPos + consumed words k)%Z.
Proof.
  induction words as [|w rest IH]; intros k i charPos.
  - destruct k; simpl; lia.
  - destruct k as [|k]; cbn [walkWords consumed lessThan JS.minus].
    + destruct (Z.ltb_spec i (i + Z.of_nat 0)); lia.
    + destruct (Z.ltb_spec i (i + Z.of_nat (S k))); [|lia].
      replace (i + Z.of_nat (S k))%Z with (i + 1 + Z.of_nat k)%Z by lia.
      rewrite IH.
      destruct (Z.ltb_spec i (i + 1 + Z.of_nat k - 1));
        destruct (Nat.ltb_spec 0 (String.length w));
        destruct (Nat.eqb_spec k 0);
        destruct (Nat.eqb_spec (String.length w) 0);
        cbn [orb andb]; lia.
Qed.

Lemma push_append (w : string) (pieces : list string) (c : ascii) :
  JS.push c (match pieces with
             | p :: ps => (w ++ p) :: ps
             | [] => [w]
             end)
  = match pieces with
    | p :: ps => (String c w ++ p) :: ps
    | [] => [String c w]
    end.
Proof. now destruct pieces. Qed.

Lemma splitWs_from_cons (inSep : bool) (s : string) :
  exists p ps, JS.splitWs_from inSep s = p :: ps.
Proof.
  revert inSep. induction s as [|c s IH]; intros inSep; simpl; [eauto|].
  destruct (JS.isWhiteSpace c).
  - destruct inSep; eauto.
  - destruct (IH false) as (p & ps & ->). simpl. eauto.
Qed.

Lemma splitWs_from_spaceFree (w s : string) :
  spaceFree w = true ->
  JS.splitWs_from false (w ++ s)
  = match JS.splitWs_from false s with
    | p :: ps => (w ++ p) :: ps
    | [] => [w]
    end.
Proof.
  intros Hw. induction w as [|c w IH]; simpl.
  - now destruct (splitWs_from_cons false s) as (p & ps & ->).
  - simpl in Hw. apply andb_prop in Hw as [Hc Hw].
    apply negb_true_iff in Hc. rewrite Hc, (IH Hw). apply push_append.
Qed.

Lemma splitWs_from_after_space (s : string) (c : ascii) :
  JS.isWhiteSpace c = false ->
  JS.splitWs_from true (String c s) = JS.splitWs_from false (String c s).
Proof. intros Hc. simpl. now rewrite Hc. Qed.

(** Words joined by single spaces are split back into the same words. *)
Lemma splitWs_join (words : list string) :
  words <> [] -> forallb isWord words = true ->
  JS.splitWs (JS.join " " words) = words.
Proof.
  unfold JS.splitWs. induction words as [|w rest IH]; [congruence|].
  intros _ Hall. simpl in Hall. apply andb_prop in Hall as [Hw Hrest].
  unfold isWord in Hw. apply andb_prop in Hw as [Hne Hsf].
  destruct rest as [|w2 rest'].
  - cbn [JS.join]. rewrite <- (append_empty_r w) at 1.
    rewrite splitWs_from_spaceFree by assumption. simpl.
    now rewrite append_empty_r.
  - change (JS.join " " (w :: w2 :: rest'))
      with (w ++ String " " (JS.join " " (w2 :: rest'))).
    rewrite splitWs_from_spaceFree by assumption.
    cbn [JS.splitWs_from]. change (JS.isWhiteSpace " ") with true. cbv iota.
    rewrite append_empty_r. f_equal.
    assert (Hw2 : isWord w2 = true).
    { simpl in Hrest. now apply andb_prop in Hrest as [? _]. }
    unfold isWord in Hw2. apply andb_prop in Hw2 as [Hne2 Hsf2].
    destruct w2 as [|c w2]; [discriminate|].
    simpl in Hsf2. apply andb_prop in Hsf2 as [Hc _].
    apply negb_true_iff in Hc.
    assert (Hj : exists tail, JS.join " " (String c w2 :: rest') = String c tail).
    { destruct rest'; simpl; eauto. }
    destruct Hj as [tail Hj]. rewrite Hj.
    rewrite splitWs_from_after_space by assumption. rewrite <- Hj.
    apply IH; [discriminate | assumption].
Qed.

Lemma consumed_words (words : list string) (k : nat) :
  forallb isWord words = true -> k < List.length words ->
  JS.drop (Z.to_nat (consumed words k)) (JS.join " " words)
  = JS.join " " (skipn k words)
  /\ (0 <= consumed words k)%Z.
Proof.
  revert k. induction words as [|w rest IH]; intros k Hall Hk;
    [simpl in Hk; lia|].
  destruct k as [|k]; [simpl; split; [reflexivity | lia]|].
  simpl in Hall. apply andb_prop in Hall as [Hw Hrest].
  simpl in Hk. destruct (IH k Hrest ltac:(lia)) as [IHd IHp].
  assert (Hlen : 0 < String.length w).
  { destruct w; [discriminate | simpl; lia]. }
  cbn [consumed skipn].
  destruct (Nat.eqb_spec (String.length w) 0) as [|_]; [lia|].
  rewrite andb_false_r. split; [|lia].
  destruct rest as [|w2 rest']; [simpl in Hk; lia|].
  change (JS.join " " (w :: w2 :: rest'))
    with (w ++ " " ++ JS.join " " (w2 :: rest')).
  replace (Z.to_nat (Z.of_nat (String.length w) + 1 + consumed (w2 :: rest') k))
    with (String.length w + (1 + Z.to_nat (consumed (w2 :: rest') k))) by lia.
  rewrite drop_plus, drop_append, drop_plus. exact IHd.
Qed.

Lemma citationPosition_default (startLine original : option string) :
  JS.truthy startLine = false
  \/ (exists s, startLine = Some s /\ specWord s = None) ->
  snd (citationPosition startLine original) = "1".
Proof.
  unfold citationPosition. intros [H | (s & -> & H)].
  - now rewrite H.
  - apply specWord_none in H. cbn [orDefault]. rewrite H.
    now destruct (JS.truthy (Some s)).
Qed.

Lemma citationPosition_walk (s original line : string) (n w : Z) :
  s <> "" -> original <> "" ->
  specLine s = JS.Num n -> specWord s = Some (JS.Num w) ->
  (1 <= n)%Z -> (0 <= w)%Z ->
  nth_error (JS.splitLines original) (Z.to_nat (n - 1)) = Some line ->
  citationPosition (Some s) (Some original)
  = (nth 0 (JS.splitOn "." s) "",
     JS.toString (1 + consumed (JS.splitWs line) (Z.to_nat w))).
Proof.
  intros Hs Ho Hn Hw Hn1 Hw0 Hline. unfold citationPosition.
  rewrite !truthy_nonempty by assumption. cbn [orDefault].
  apply specWord_some in Hw as [Hparts Hw]. rewrite Hparts, Hw.
  unfold specLine in Hn. rewrite Hn. cbn [andb JS.minus].
  assert (Hlt : Z.to_nat (n - 1) < List.length (JS.splitLines original)).
  { apply nth_error_Some. congruence. }
  destruct (Z.leb_spec 0 (n - 1)); [|lia].
  destruct (Z.ltb_spec (n - 1) (Z.of_nat (List.length (JS.splitLines original))));
    [|lia].
  cbn [andb]. rewrite (nth_error_nth _ _ "" Hline).
  pose proof (walkWords_consumed (JS.splitWs line) (Z.to_nat w) 0 1) as Hwalk.
  rewrite Z2Nat.id in Hwalk by assumption. cbn [Z.add] in Hwalk.
  now rewrite Hwalk.
Qed.

(** What the column computation yields.  The citation carries the line
    named by the start spec and column 1 unless the start spec has a word
    index.  With a word index W, a non-empty original text and a start line
    inside it, the column is one plus what the walk over the first W pieces
    of that line of the original, un-sliced text steps over: the length of
    each piece plus one for a separator, none being counted after the W-th
    piece when it is empty.  On a line whose words are separated by single
    spaces, with no white space before the first or after the last, that
    column is where word W begins: the line from that column on is word W
    and what follows it. *)
Lemma citation_column_walk :
  (forall h content path label startLine original,
      formatQuote h content path label true startLine original
      = JS.join JS.nl (map quoteLine (JS.splitLines content))
        ++ JS.nl ++ "> " ++ JS.nl ++ "> "
        ++ "*" ++ label ++ ": [" ++ basename h path ++ "](<"
        ++ ("vscode://file/" ++ JS.backslashesToSlashes path ++ ":"
            ++ fst (citationPosition startLine original) ++ ":"
            ++ snd (citationPosition startLine original))
        ++ ">)*")
  /\ (forall startLine original,
         JS.truthy startLine = false
         \/ (exists s, startLine = Some s /\ specWord s = None) ->
         snd (citationPosition startLine original) = "1")
  /\ (forall s original line n w,
         s <> "" -> original <> "" ->
         specLine s = JS.Num n -> specWord s = Some (JS.Num w) ->
         (1 <= n)%Z -> (0 <= w)%Z ->
         nth_error (JS.splitLines original) (Z.to_nat (n - 1)) = Some line ->
         citationPosition (Some s) (Some original)
         = (nth 0 (JS.splitOn "." s) "",
            JS.toString (1 + consumed (JS.splitWs line) (Z.to_nat w))))
  /\ (forall words w,
         forallb isWord words = true -> w < List.length words ->
         JS.splitWs (JS.join " " words) = words
         /\ JS.drop (Z.to_nat (1 + consumed words w - 1)) (JS.join " " words)
            = JS.join " " (skipn w words))
  /\ fst (execute greek_host no_settings 5 ":(a.md#L2.2){quote}" "/d/root.md"
            None)
     = Done ("> gamma" ++ JS.nl ++ "> " ++ JS.nl
             ++ "> *Source: [a.md](<vscode://file//d/a.md:2:12>)*").
Proof.
  split; [|split; [|split; [|split; [|reflexivity]]]].
  - intros h content path label startLine original. unfold formatQuote.
    cbn [negb]. now destruct (citationPosition startLine original).
  - apply citationPosition_default.
  - intros s original line n w. apply citationPosition_walk.
  - intros words w Hall Hw. split.
    + apply splitWs_join; [|assumption].
      destruct words; [simpl in Hw; lia | discriminate].
    + replace (1 + consumed words w - 1)%Z with (consumed words w) by lia.
      now apply consumed_words.
Qed.

(** C8 at two failing inputs.  The walk adds one character for each
    separator, whatever its width, and none for the empty piece before
    leading white space.  On the line ["a  b"] word 1 is ["b"], which
    begins at column 4, and the citation gives column 3, a space; on the
    line [" a b"] piece 1 is ["a"], which begins at column 2, and the
    citation gives column 1, the leading space.  The directives
    [:(a.md#L1.1){quote}] and [:(i.md#L1.1){quote}] put those columns in
    the link. *)
Theorem citation_column_misses_word_start :
  citationPosition (Some "1.1") (Some "a  b") = ("1", "3")
  /\ JS.splitWs "a  b" = ["a"; "b"]
  /\ JS.drop (4 - 1) "a  b" = "b"
  /\ JS.drop (3 - 1) "a  b" = " b"
  /\ specColumn (JS.splitWs "a  b") 1 = 3%Z
  /\ citationPosition (Some "1.1") (Some " a b") = ("1", "1")
  /\ JS.splitWs " a b" = [""; "a"; "b"]
  /\ JS.drop (2 - 1) " a b" = "a b"
  /\ specColumn (JS.splitWs " a b") 1 = 2%Z
  /\ fst (execute spaced_host no_settings 5 ":(a.md#L1.1){quote}" "/d/root.md"
            None)
     = Done ("> b" ++ JS.nl ++ "> " ++ JS.nl
             ++ "> *Source: [a.md](<vscode://file//d/a.md:1:3>)*")
  /\ fst (execute spaced_host no_settings 5 ":(i.md#L1.1){quote}" "/d/root.md"
            None)
     = Done ("> a b" ++ JS.nl ++ "> " ++ JS.nl
             ++ "> *Source: [i.md](<vscode://file//d/i.md:1:1>)*").
Proof. repeat split; reflexivity. Qed.

(** ** The two substituted messages *)

Lemma scan_step (fuel : nat) (pattern : regex)
    (step : result -> string -> M string) (content : string)
    (regexResult : result) :
  exec pattern content = Some regexResult ->
  scan (S fuel) pattern step content
  = (content' <- step regexResult content ;; scan fuel pattern step content').
Proof. intros H. simpl. now rewrite H. Qed.

Lemma processed_last (chain : list string) (file : string) :
  processed (chain ++ [file]) file = true.
Proof.
  unfold processed. rewrite existsb_app. simpl.
  now rewrite String.eqb_refl, orb_true_r.
Qed.

(** For a target whose path has no dollar sign the not-found text is the
    template with its first [{{FILE}}] replaced by the path; nothing is
    read and [execute] is not called. *)
Lemma missing_target_message (h : Host) (settings : IncludeSettings)
    (expand : string -> string -> option (list string) -> M string)
    (regexResult : result)
    (parentContent parentFolder parentFile childName notFound circular : string)
    (processedFiles : list string)
    (startLine endLine quoteOverride : option string) (pre post : string) :
  let childFile := resolve h parentFolder childName in
  disk h childFile = None ->
  dollarFree childFile = true ->
  firstOccurrence "{{FILE}}" notFound pre post ->
  replace h settings expand regexResult parentContent parentFolder parentFile
    childName notFound circular processedFiles startLine endLine quoteOverride
  = (Done (splice parentContent regexResult (pre ++ childFile ++ post)),
     [ExistsSync childFile false]).
Proof.
  intros childFile Hd Hfree Hocc. subst childFile.
  rewrite replace_not_found by assumption.
  destruct (replace_first_occurrence notFound "{{FILE}}"
              (resolve h parentFolder childName) pre post Hocc)
    as (filled & -> & Hfilled).
  now rewrite (Hfilled Hfree).
Qed.

(** After a missing target the loop goes on with the spliced text. *)
Lemma scan_after_missing_target (h : Host) (settings : IncludeSettings)
    (expand : string -> string -> option (list string) -> M string)
    (fuel : nat) (pattern : regex) (parentFolder parentFile : string)
    (chain : list string) (name start end_ quote : nat)
    (content childName : string) (regexResult : result) :
  let step :=
    resolveDirective h settings expand parentFolder parentFile chain name
      start end_ quote in
  let childFile := resolve h parentFolder (JS.trim childName) in
  exec pattern content = Some regexResult ->
  capture name (groups regexResult) = Some childName ->
  disk h childFile = None ->
  scan (S fuel) pattern step content
  = (emit (ExistsSync childFile false) ;;;
     scan fuel pattern step
       (splice content regexResult
          (JS.replace
             (orElse (notFoundMessage settings) DEFAULT_NOT_FOUND_MESSAGE)
             "{{FILE}}" childFile))).
Proof.
  intros step childFile Hex Hname Hd.
  rewrite (scan_step _ _ _ _ _ Hex). unfold step at 1.
  unfold resolveDirective, fileName. rewrite Hname, bind_ret_l.
  rewrite replace_not_found by exact Hd.
  unfold bind, emit. fold childFile.
  now destruct (scan fuel pattern step _).
Qed.

(** A document that includes itself through a Style A directive, its only
    directive: one pass of the loop puts the circular text in its place,
    checking that the document exists and reading nothing. *)
Lemma self_include_message (h : Host) (settings : IncludeSettings)
    (fuel : nat) (content file name : string) (regexResult : result) :
  commonmarkEnabled settings = true ->
  exec COMMONMARK_PATTERN content = Some regexResult ->
  capture 3 (groups regexResult) = Some name ->
  resolve h (dirname h file) (JS.trim name) = file ->
  disk h file <> None ->
  let message :=
    JS.replace (JS.replace (circularTemplate settings) "{{FILE}}" file)
      "{{PARENT}}" file in
  let out := splice content regexResult message in
  exec COMMONMARK_PATTERN out = None ->
  (markdownItEnabled settings = true -> exec MARKDOWN_IT_PATTERN out = None) ->
  execute h settings (S (S (S fuel))) content file None
  = (Done out, [Enter file [file]; ExistsSync file true; Leave]).
Proof.
  intros HA Hex Hname Hself Hd message out HoutA HoutB.
  rewrite execute_S. cbv zeta. rewrite HA.
  rewrite (scan_step _ _ _ _ _ Hex).
  unfold resolveDirective at 1, fileName. rewrite Hname, bind_ret_l.
  destruct (disk h file) as [e|] eqn:He; [|congruence].
  rewrite replace_circular with (e := e);
    [|now rewrite Hself | rewrite Hself; apply (processed_last [] file)].
  rewrite Hself. fold (circularTemplate settings). fold message. fold out.
  unfold bind at 3. rewrite (scan_no_match _ _ _ _ HoutA).
  cbn [ret app bind].
  destruct (markdownItEnabled settings).
  - now rewrite (scan_no_match _ _ _ _ (HoutB eq_refl)).
  - reflexivity.
Qed.

(** C3 at a failing input.  The document [/d/$$.md] includes itself and
    nothing else.  The circular message is substituted once and the file
    is not read, but the two dollar signs of the path are taken as the
    replacement pattern for one dollar sign, so neither placeholder is
    filled with the document's path. *)
Theorem self_include_garbles_dollar_path :
  resolve dollar_host (dirname dollar_host "/d/$$.md") "$$.md" = "/d/$$.md"
  /\ execute dollar_host no_settings 5 dollar_self "/d/$$.md" None
     = (Done "Circular reference between '/d/$.md' and '/d/$.md'",
        [Enter "/d/$$.md" ["/d/$$.md"]; ExistsSync "/d/$$.md" true; Leave])
  /\ JS.replace DEFAULT_CIRCULAR_MESSAGE "{{FILE}}" "/d/$$.md"
     <> "Circular reference between '/d/$$.md' and '{{PARENT}}'".
Proof. split; [|split]; try reflexivity. vm_compute. discriminate. Qed.

(** C4 at a failing input.  [cost$$.md] does not exist.  The not-found
    message takes the place of the directive, the missing file is neither
    read nor expanded and the loop goes on to the next directive, but the
    message names [/d/cost$.md], not the resolved path [/d/cost$$.md]: the
    two dollar signs are taken as the replacement pattern for one. *)
Theorem not_found_garbles_dollar_path :
  resolve dollar_host (dirname dollar_host "/d/root.md") "cost$$.md"
  = "/d/cost$$.md"
  /\ execute dollar_host no_settings 5 dollar_missing "/d/root.md" None
     = (Done "see File '/d/cost$.md' not found|B",
        [Enter "/d/root.md" ["/d/root.md"]; ExistsSync "/d/cost$$.md" false;
         ExistsSync "/d/b.md" true; ReadFileSync "/d/b.md";
         Enter "/d/b.md" ["/d/root.md"; "/d/b.md"]; Leave; Leave])
  /\ JS.replace DEFAULT_NOT_FOUND_MESSAGE "{{FILE}}" "/d/cost$$.md"
     <> "File '/d/cost$$.md' not found".
Proof. split; [|split]; try reflexivity. vm_compute. discriminate. Qed.

(* ================================================================== *)
(** * Further properties of the code *)
(* ================================================================== *)

(** ** What a match is *)

(** The text [exec] returns as element 0 is a text of the pattern, found
    at [index] in the input. *)
Lemma exec_from_whole (r : regex) (s : string) :
  forall (idx : nat) (regexResult : result),
    exec_from r s idx = Some regexResult ->
    exists before after,
      s = before ++ whole regexResult ++ after
      /\ idx + String.length before = index regexResult
      /\ Lang r (whole regexResult).
Proof.
  assert (Hhere : forall s idx rest cs,
             match_here r s = Some (rest, cs) ->
             let regexResult :=
               mkResult idx (JS.take (String.length s - String.length rest) s) cs in
             exists before after,
               s = before ++ whole regexResult ++ after
               /\ idx + String.length before = index regexResult
               /\ Lang r (whole regexResult)).
  { intros s0 idx rest cs Hm.
    apply run_sound in Hm as (t & s' & cs' & -> & Hl & [= <- <-] & _).
    cbn [whole index]. rewrite length_append, Nat.add_sub, take_append.
    exists "", s'. simpl. auto. }
  induction s as [|c s IH]; intros idx regexResult; cbn [exec_from];
    (destruct (match_here r _) as [[rest cs]|] eqn:Hm;
     [intros [= <-]; exact (Hhere _ idx _ _ Hm) |]).
  - discriminate.
  - intros H. apply IH in H as (before & after & Hs & Hidx & Hl).
    exists (String c before), after. simpl. rewrite <- Hs.
    repeat split; [lia | assumption].
Qed.

(** X1.  What [replace] returns is the parent text with the matched span,
    and nothing else, exchanged: the text before the directive and the text
    after it are kept as they are, whatever is put in its place. *)
Theorem replace_keeps_surroundings :
  forall h settings expand pattern parentContent regexResult parentFolder
         parentFile childName notFound circular processedFiles startLine
         endLine quoteOverride out log,
    exec pattern parentContent = Some regexResult ->
    replace h settings expand regexResult parentContent parentFolder
      parentFile childName notFound circular processedFiles startLine endLine
      quoteOverride = (Done out, log) ->
    exists before after child,
      parentContent = before ++ whole regexResult ++ after
      /\ String.length before = index regexResult
      /\ out = before ++ child ++ after.
Proof.
  intros h settings expand pattern parentContent regexResult parentFolder
    parentFile childName notFound circular processedFiles startLine endLine
    quoteOverride out log Hex Hrun.
  apply exec_from_whole in Hex as (before & after & Hs & Hidx & _).
  simpl in Hidx. unfold replace in Hrun.
  apply bind_done in Hrun as (child & l1 & l2 & _ & [= <- _] & _).
  exists before, after, child. repeat split; [assumption | assumption |].
  unfold splice. rewrite <- Hidx. rewrite Hs at 1 2.
  now rewrite take_append, drop_plus, drop_append, drop_append.
Qed.

Lemma replace_keeps_surroundings_witness :
  exists before after child,
    "x :(a.md) y" = before ++ ":(a.md) " ++ after
    /\ String.length before = 2
    /\ "x Ay" = before ++ child ++ after.
Proof.
  exact (replace_keeps_surroundings folder_host no_settings
           (fun content _ _ => ret content) COMMONMARK_PATTERN "x :(a.md) y"
           (mkResult 2 ":(a.md) " [(3, "a.md")]) "/d" "/d/root.md" "a.md"
           "" "" ["/d/root.md"] None None None "x Ay"
           [ExistsSync "/d/a.md" true; ReadFileSync "/d/a.md"]
           eq_refl eq_refl).
Defined.

Lemma hasChar_append (c : ascii) (a b : string) :
  hasChar c (a ++ b) = hasChar c a || hasChar c b.
Proof.
  induction a as [|d a IH]; simpl; [reflexivity|].
  now rewrite IH, orb_assoc.
Qed.

Lemma noneOf_hasChar (cs name : string) (c : ascii) :
  member c cs = true -> allIn (NoneOf cs) name = true ->
  hasChar c name = false.
Proof.
  intros Hc. induction name as [|d name IH]; [reflexivity|].
  cbn [allIn cls_match hasChar]. intros H. apply andb_prop in H as [Hd H].
  rewrite (IH H), orb_false_r.
  destruct (Ascii.eqb_spec d c) as [->|]; [|reflexivity].
  now rewrite Hc in Hd.
Qed.

Lemma dot_hasChar (name : string) :
  allIn Dot name = true ->
  hasChar JS.LF name = false /\ hasChar JS.CR name = false.
Proof.
  induction name as [|d name IH]; [auto|].
  cbn [allIn cls_match hasChar]. intros H. apply andb_prop in H as [Hd H].
  destruct (IH H) as [-> ->]. apply negb_true_iff, orb_false_elim in Hd.
  destruct Hd as [-> ->]. auto.
Qed.

Lemma captured_group (r body : regex) (n : nat) (content : string)
    (regexResult : result) :
  exec r content = Some regexResult ->
  In n (alwaysSet r) -> groupsOf n r = [body] ->
  exists text, capture n (groups regexResult) = Some text /\ Lang body text.
Proof.
  intros Hex Hset Hbody.
  pose proof (exec_from_sets_groups r content 0 regexResult Hex n Hset) as Hn.
  destruct (capture n (groups regexResult)) as [text|] eqn:Hc; [|congruence].
  exists text. split; [reflexivity|].
  destruct (exec_from_sound r content 0 regexResult Hex n text Hc)
    as (r' & Hin & Hl).
  rewrite Hbody in Hin. now destruct Hin as [<- | []].
Qed.

(** X2.  The file name of a directive is always captured and never empty.
    In Style A it holds no closing parenthesis and no hash sign, so a file
    with either in its name cannot be the target of a Style A directive;
    in Style B it holds no line break. *)
Theorem target_name_shape :
  forall content regexResult,
    (exec COMMONMARK_PATTERN content = Some regexResult ->
     exists name,
       capture 3 (groups regexResult) = Some name /\ name <> ""
       /\ hasChar ")" name = false /\ hasChar "#" name = false)
    /\ (exec MARKDOWN_IT_PATTERN content = Some regexResult ->
        exists name,
          capture 1 (groups regexResult) = Some name /\ name <> ""
          /\ hasChar JS.LF name = false /\ hasChar JS.CR name = false).
Proof.
  intros content regexResult. split; intros Hex.
  - destruct (captured_group _ (Rep (NoneOf ")#") 1 false) 3 _ _ Hex)
      as (name & Hc & Hall & Hlen); [simpl; auto | reflexivity |].
    exists name. split; [assumption|].
    split; [now apply nonempty_of_length|].
    split; eapply noneOf_hasChar; try exact Hall; reflexivity.
  - destruct (captured_group _ (Rep Dot 1 true) 1 _ _ Hex)
      as (name & Hc & Hall & Hlen); [simpl; auto | reflexivity |].
    exists name. split; [assumption|].
    split; [now apply nonempty_of_length|]. now apply dot_hasChar.
Qed.

Lemma target_name_shape_witness :
  exists name,
    capture 3 [(3, "a b.md")] = Some name /\ name <> ""
    /\ hasChar ")" name = false /\ hasChar "#" name = false.
Proof.
  exact (proj1 (target_name_shape "see :(a b.md)"
                  (mkResult 4 ":(a b.md)" [(3, "a b.md")])) eq_refl).
Defined.

(** X3.  Every range spec either pattern captures is a decimal line
    number, optionally followed by a dot and a decimal word index: it is
    not empty, its line parses to a non-negative integer and so does its
    word index when it has one. *)
Theorem captured_ranges_wellFormed :
  forall content regexResult spec,
    (exec COMMONMARK_PATTERN content = Some regexResult ->
     capture 4 (groups regexResult) = Some spec
     \/ capture 5 (groups regexResult) = Some spec ->
     wellFormedSpec spec)
    /\ (exec MARKDOWN_IT_PATTERN content = Some regexResult ->
        capture 2 (groups regexResult) = Some spec
        \/ capture 3 (groups regexResult) = Some spec ->
        wellFormedSpec spec).
Proof.
  intros content regexResult spec.
  destruct (directive_groups content regexResult) as [HA HB].
  split; intros Hex [Hc | Hc].
  - now apply (proj1 (HA Hex)).
  - now apply (proj1 (proj2 (HA Hex))).
  - now apply (proj1 (HB Hex)).
  - now apply (proj1 (proj2 (HB Hex))).
Qed.

Lemma captured_ranges_wellFormed_witness : wellFormedSpec "12.3".
Proof.
  exact (proj1 (captured_ranges_wellFormed "see :(a.md#L12.3-14)"
                  (mkResult 4 ":(a.md#L12.3-14)"
                     [(5, "14"); (4, "12.3"); (3, "a.md")]) "12.3")
           eq_refl (or_introl eq_refl)).
Defined.

Lemma litEq_exact (l t : string) :
  (forall a, In a (list_ascii_of_string l) ->
             forall c, Ascii.eqb (canonicalize a) (canonicalize c) = true ->
                       c = a) ->
  litEq l t = true -> t = l.
Proof.
  revert t. induction l as [|a l IH]; intros [|c t] Hl; try discriminate;
    [reflexivity|].
  cbn [litEq]. intros H. apply andb_prop in H as [Hc H].
  rewrite (Hl a (or_introl eq_refl) c Hc). f_equal.
  apply IH; [|assumption]. intros b Hb. apply Hl. now right.
Qed.

Lemma colon_exact (c : ascii) :
  Ascii.eqb (canonicalize ":") (canonicalize c) = true -> c = ":"%char.
Proof. intros H. now each_char H c. Qed.

Lemma bang_exact (c : ascii) :
  Ascii.eqb (canonicalize "!") (canonicalize c) = true -> c = "!"%char.
Proof. intros H. now each_char H c. Qed.

(** A text without a colon has no Style A directive, a text without an
    exclamation mark no Style B directive. *)
Lemma no_mark_no_directive (content : string) :
  (hasChar ":" content = false -> exec COMMONMARK_PATTERN content = None)
  /\ (hasChar "!" content = false -> exec MARKDOWN_IT_PATTERN content = None).
Proof.
  split; intros Hno.
  - destruct (exec COMMONMARK_PATTERN content) as [regexResult|] eqn:Hex;
      [|reflexivity].
    apply exec_from_whole in Hex as (before & after & Hs & _ & Hl).
    cbn [COMMONMARK_PATTERN Seq fold_right Lang] in Hl.
    destruct Hl as (t1 & t2 & Hw & Hlit & _).
    apply litEq_exact in Hlit;
      [|intros a [<- | []] c; apply colon_exact].
    rewrite Hs, Hw, Hlit, !hasChar_append in Hno. simpl in Hno.
    now rewrite orb_true_r in Hno.
  - destruct (exec MARKDOWN_IT_PATTERN content) as [regexResult|] eqn:Hex;
      [|reflexivity].
    apply exec_from_whole in Hex as (before & after & Hs & _ & Hl).
    cbn [MARKDOWN_IT_PATTERN Seq fold_right Lang] in Hl.
    destruct Hl as (t1 & t2 & Hw & Hlit & _).
    apply litEq_exact in Hlit;
      [|intros a [<- | [<- | [<- | []]]] c; apply bang_exact].
    rewrite Hs, Hw, Hlit, !hasChar_append in Hno. simpl in Hno.
    now rewrite orb_true_r in Hno.
Qed.

(** X4.  A document with no colon and no exclamation mark goes through
    [trigger] unchanged, whatever the settings and whether or not an editor
    is active, and no file is looked up or read. *)
Theorem plain_text_untouched :
  forall h settings fuel activeTextEditor src,
    hasChar ":" src = false -> hasChar "!" src = false -> 2 <= fuel ->
    trigger h settings fuel activeTextEditor src
    = (Done src,
       match activeTextEditor with
       | Some (Some file) => [Enter file [file]; Leave]
       | _ => []
       end).
Proof.
  intros h settings fuel activeTextEditor src Hcolon Hbang Hfuel.
  destruct activeTextEditor as [[file|]|]; try reflexivity.
  cbn [trigger]. destruct fuel as [|fuel]; [lia|].
  destruct (no_mark_no_directive src) as [HA HB].
  rewrite execute_clean; [reflexivity | |]; intros _; (split; [auto | lia]).
Qed.

Lemma plain_text_untouched_witness :
  trigger folder_host no_settings 2 (Some (Some "/d/root.md")) "plain text"
  = (Done "plain text", [Enter "/d/root.md" ["/d/root.md"]; Leave]).
Proof.
  exact (plain_text_untouched folder_host no_settings 2
           (Some (Some "/d/root.md")) "plain text" eq_refl eq_refl
           (le_n 2)).
Defined.

(** ** Runs, their logs and their exceptions *)

(** [replace] by cases on what the disk holds at the resolved path. *)
Lemma replace_cases (h : Host) (settings : IncludeSettings)
    (expand : string -> string -> option (list string) -> M string)
    (regexResult : result)
    (parentContent parentFolder parentFile childName notFound circular : string)
    (processedFiles : list string)
    (startLine endLine quoteOverride : option string) :
  let childFile := resolve h parentFolder childName in
  replace h settings expand regexResult parentContent parentFolder parentFile
    childName notFound circular processedFiles startLine endLine quoteOverride
  = match disk h childFile with
    | None =>
        (Done (splice parentContent regexResult
                 (JS.replace notFound "{{FILE}}" childFile)),
         [ExistsSync childFile false])
    | Some e =>
        if processed processedFiles childFile then
          (Done (splice parentContent regexResult
                   (JS.replace (JS.replace circular "{{FILE}}" childFile)
                      "{{PARENT}}" parentFile)),
           [ExistsSync childFile true])
        else
          match e with
          | Directory =>
              (Threw (ReadError childFile),
               [ExistsSync childFile true; ReadFileSync childFile])
          | File original =>
              let run :=
                expand (sliceLines original startLine endLine) childFile
                  (Some processedFiles) in
              (match fst run with
               | Done expanded =>
                   Done (splice parentContent regexResult
                           (if shouldQuote settings quoteOverride
                            then formatQuote h expanded childFile
                                   (sourceLabelOf settings)
                                   (includeSourceOf settings) startLine
                                   (Some original)
                            else expanded))
               | Threw e' => Threw e'
               | OutOfFuel => OutOfFuel
               end,
               ExistsSync childFile true :: ReadFileSync childFile :: snd run)
          end
    end.
Proof.
  intros childFile. subst childFile.
  destruct (disk h (resolve h parentFolder childName)) as [e|] eqn:Hd.
  - destruct (processed processedFiles _) eqn:Hp.
    + now apply replace_circular with (e := e).
    + unfold replace, existsSync, readFileSync. rewrite Hd. simpl. rewrite Hp.
      destruct e as [original|]; [|reflexivity].
      simpl. destruct (expand _ _ _) as [[expanded | e' |] log]; simpl;
        [destruct (shouldQuote settings quoteOverride); simpl | |];
        now rewrite ?app_nil_r.
  - now apply replace_not_found.
Qed.

(** A property of runs that holds of a [scan] as soon as it holds of a
    stop for lack of fuel, of returned values, of sequences and of the
    body applied to what [exec] found. *)
Lemma scan_invariant (P : M string -> Prop) (pattern : regex)
    (step : result -> string -> M string) :
  P out_of_fuel ->
  (forall content, P (ret content)) ->
  (forall m f, P m -> (forall content, P (f content)) -> P (bind m f)) ->
  (forall regexResult content,
      exec pattern content = Some regexResult -> P (step regexResult content)) ->
  forall fuel content, P (scan fuel pattern step content).
Proof.
  intros Hfuel Hret Hbind Hstep. induction fuel as [|fuel IH]; intros content;
    simpl; [assumption|].
  destruct (exec pattern content) as [regexResult|] eqn:Hex; [|apply Hret].
  apply Hbind; [now apply Hstep | apply IH].
Qed.

Lemma throwsOnFoldersOnly_bind (h : Host) (m : M string)
    (f : string -> M string) :
  throwsOnFoldersOnly h m -> (forall a, throwsOnFoldersOnly h (f a)) ->
  throwsOnFoldersOnly h (bind m f).
Proof.
  intros Hm Hf e. destruct m as [[a | e' |] l1]; simpl.
  - specialize (Hf a). destruct (f a) as [r l2]. exact (Hf e).
  - exact (Hm e).
  - discriminate.
Qed.

Lemma throwsOnFoldersOnly_step (h : Host) (settings : IncludeSettings)
    (expand : string -> string -> option (list string) -> M string)
    (pattern : regex) (parentFolder parentFile : string)
    (chain : list string) (name start end_ quote : nat)
    (regexResult : result) (content : string) :
  (forall c f ps, throwsOnFoldersOnly h (expand c f ps)) ->
  In name (alwaysSet pattern) ->
  exec pattern content = Some regexResult ->
  throwsOnFoldersOnly h
    (resolveDirective h settings expand parentFolder parentFile chain name
       start end_ quote regexResult content).
Proof.
  intros Hexpand Hset Hex. unfold resolveDirective, fileName.
  pose proof (exec_from_sets_groups _ _ 0 _ Hex name Hset) as Hname.
  destruct (capture name (groups regexResult)) as [childName|]; [|congruence].
  rewrite bind_ret_l, replace_cases. cbv zeta.
  destruct (disk h _) as [[original|]|] eqn:Hd;
    try destruct (processed chain _); try discriminate.
  - intros e. simpl.
    specialize (Hexpand (sliceLines original (capture start (groups regexResult))
                           (capture end_ (groups regexResult)))
                  (resolve h parentFolder (JS.trim childName)) (Some chain) e).
    destruct (fst (expand _ _ _)); try discriminate. exact Hexpand.
  - intros e [= <-]. eauto.
Qed.

(** X5.  The only way [execute] throws is [readFileSync] on a path that
    exists without being a file: a missing target, a circular one and a
    match without a file name never make it throw. *)
Theorem execute_throws_on_folders_only :
  forall h settings fuel content file processedFiles e,
    fst (execute h settings fuel content file processedFiles) = Threw e ->
    exists path, e = ReadError path /\ disk h path = Some Directory.
Proof.
  intros h settings fuel.
  induction fuel as [|fuel IH]; intros content file processedFiles;
    [discriminate|].
  change (throwsOnFoldersOnly h
            (execute h settings (S fuel) content file processedFiles)).
  rewrite execute_S. cbv zeta. rewrite bind_emit.
  assert (Hscan : forall pattern name start end_ quote c,
             In name (alwaysSet pattern) ->
             throwsOnFoldersOnly h
               (scan fuel pattern
                  (resolveDirective h settings (execute h settings fuel)
                     (dirname h file) file
                     (orDefault processedFiles [] ++ [file])%list
                     name start end_ quote) c)).
  { intros pattern name start end_ quote c Hset.
    apply scan_invariant; try discriminate.
    - apply throwsOnFoldersOnly_bind.
    - intros regexResult c' Hex.
      now apply throwsOnFoldersOnly_step with (pattern := pattern). }
  intros e. cbn [fst]. revert e.
  apply throwsOnFoldersOnly_bind.
  { destruct (commonmarkEnabled settings);
      [apply Hscan; simpl; auto | discriminate]. }
  intros c1. apply throwsOnFoldersOnly_bind.
  { destruct (markdownItEnabled settings);
      [apply Hscan; simpl; auto | discriminate]. }
  intros c2. discriminate.
Qed.

Lemma execute_throws_on_folders_only_witness :
  exists path, ReadError "/d/sub" = ReadError path
               /\ disk folder_host path = Some Directory.
Proof.
  exact (execute_throws_on_folders_only folder_host no_settings 5
           "see :(sub) and :(a.md)" "/d/root.md" None (ReadError "/d/sub")
           eq_refl).
Defined.

Lemma readsGuarded_weaken (previous : option event) (log : list event) :
  readsGuarded None log = true -> readsGuarded previous log = true.
Proof.
  destruct log as [|e log]; [reflexivity|]. cbn [readsGuarded].
  destruct e; try (intros H; exact H). discriminate.
Qed.

Lemma readsGuarded_app (l1 l2 : list event) :
  forall previous,
    readsGuarded previous l1 = true -> readsGuarded None l2 = true ->
    readsGuarded previous (l1 ++ l2) = true.
Proof.
  induction l1 as [|e l1 IH]; intros previous H1 H2.
  - now apply readsGuarded_weaken.
  - cbn [app readsGuarded] in *. apply andb_prop in H1 as [-> H1].
    now rewrite IH.
Qed.

Lemma readsGuarded_bind {A B : Type} (m : M A) (f : A -> M B) :
  readsGuarded None (snd m) = true ->
  (forall a, readsGuarded None (snd (f a)) = true) ->
  readsGuarded None (snd (bind m f)) = true.
Proof.
  intros Hm Hf. destruct m as [[a | e |] l1]; simpl in *; try assumption.
  specialize (Hf a). destruct (f a) as [r l2]. simpl in *.
  now apply readsGuarded_app.
Qed.

(** X6.  Every [readFileSync] of a run comes directly after an
    [existsSync] that found the same path: no file is read without having
    been checked, and none that was reported missing. *)
Theorem reads_follow_existence_checks :
  forall h settings fuel content file processedFiles,
    readsGuarded None
      (snd (execute h settings fuel content file processedFiles)) = true.
Proof.
  intros h settings fuel.
  induction fuel as [|fuel IH]; intros content file processedFiles;
    [reflexivity|].
  rewrite execute_S. cbv zeta. rewrite bind_emit. cbn [snd readsGuarded andb].
  apply readsGuarded_weaken.
  assert (Hscan : forall pattern name start end_ quote c,
             readsGuarded None
               (snd (scan fuel pattern
                       (resolveDirective h settings (execute h settings fuel)
                          (dirname h file) file
                          (orDefault processedFiles [] ++ [file])%list
                          name start end_ quote) c)) = true).
  { intros pattern name start end_ quote c.
    apply (scan_invariant (fun m => readsGuarded None (snd m) = true));
      try reflexivity.
    - intros m f Hm Hf. now apply readsGuarded_bind.
    - intros regexResult c' _. unfold resolveDirective, fileName.
      destruct (capture name (groups regexResult)) as [childName|];
        [|reflexivity].
      rewrite bind_ret_l, replace_cases. cbv zeta.
      destruct (disk h _) as [[original|]|];
        try destruct (processed _ _); try reflexivity;
        cbn [snd readsGuarded]; rewrite String.eqb_refl; [|reflexivity].
      cbn [andb]. apply readsGuarded_weaken, IH. }
  apply readsGuarded_bind.
  { destruct (commonmarkEnabled settings); [apply Hscan | reflexivity]. }
  intros c1. apply readsGuarded_bind.
  { destruct (markdownItEnabled settings); [apply Hscan | reflexivity]. }
  reflexivity.
Qed.

Lemma replayFresh_app (chain : list string) (l1 l2 : list event) :
  replayFresh chain (l1 ++ l2)
  = match replayFresh chain l1 with
    | Some chain' => replayFresh chain' l2
    | None => None
    end.
Proof.
  revert chain. induction l1 as [|e l1 IH]; intros chain; [reflexivity|].
  destruct e; simpl; auto.
  - now destruct (processed chain path).
  - destruct (negb (processed chain file)); [|reflexivity].
    destruct (list_eq_dec string_dec _ _); auto.
Qed.

Lemma freshRun_ret {A : Type} (chain : list string) (a : A) :
  freshRun chain chain (ret a).
Proof. exists chain. simpl. auto. Qed.

Lemma freshRun_failed {A : Type} (chain chain' : list string) (m : M A) :
  snd m = [] -> (forall a, fst m <> Done a) -> freshRun chain chain' m.
Proof.
  intros Hlog Hfail. exists chain. rewrite Hlog. split; [reflexivity|].
  intros a Ha. now destruct (Hfail a).
Qed.

Lemma freshRun_bind {A B : Type} (chain chain' : list string) (m : M A)
    (f : A -> M B) :
  freshRun chain chain m ->
  (forall a, freshRun chain chain' (f a)) ->
  freshRun chain chain' (bind m f).
Proof.
  intros (c1 & Hm & Hdone) Hf. destruct m as [[a | e |] l1]; simpl in *.
  - destruct (Hf a) as (c2 & Hfa & Hdone2).
    unfold freshRun. destruct (f a) as [r l2]. simpl in *.
    exists c2. rewrite replayFresh_app, Hm, (Hdone a eq_refl). auto.
  - exists c1. split; [assumption | discriminate].
  - exists c1. split; [assumption | discriminate].
Qed.

Lemma freshRun_execute (h : Host) (settings : IncludeSettings) (fuel : nat) :
  forall content file processedFiles,
    processed (orDefault processedFiles []) file = false ->
    freshRun (orDefault processedFiles []) (orDefault processedFiles [])
      (execute h settings fuel content file processedFiles).
Proof.
  induction fuel as [|fuel IH]; intros content file processedFiles Hfile.
  - apply freshRun_failed; [reflexivity | discriminate].
  - rewrite execute_S. cbv zeta. rewrite bind_emit.
    set (outer := orDefault processedFiles []) in *.
    set (chain := (outer ++ [file])%list).
    assert (Hscan : forall pattern name start end_ quote c,
               freshRun chain chain
                 (scan fuel pattern
                    (resolveDirective h settings (execute h settings fuel)
                       (dirname h file) file chain name start end_ quote) c)).
    { intros pattern name start end_ quote c.
      apply (scan_invariant (freshRun chain chain)).
      - apply freshRun_failed; [reflexivity | discriminate].
      - apply freshRun_ret.
      - intros m f. apply freshRun_bind.
      - intros regexResult c' _. unfold resolveDirective, fileName.
        destruct (capture name (groups regexResult)) as [childName|];
          [|apply freshRun_failed; [reflexivity | discriminate]].
        rewrite bind_ret_l, replace_cases. cbv zeta.
        destruct (disk h _) as [[original|]|];
          try destruct (processed chain _) eqn:Hp;
          try (exists chain; simpl; rewrite ?Hp; split; [reflexivity | auto];
               discriminate).
        destruct (IH (sliceLines original
                        (capture start (groups regexResult))
                        (capture end_ (groups regexResult)))
                    (resolve h (dirname h file) (JS.trim childName))
                    (Some chain) Hp) as (final & Hreplay & Hdone).
        exists final. cbn [snd replayFresh orDefault] in *. rewrite Hp.
        split; [assumption|]. intros a Ha. cbn [fst] in Ha.
        destruct (fst (execute _ _ _ _ _ _)) as [expanded | |] eqn:Hrun;
          try discriminate.
        now apply (Hdone expanded). }
    match goal with
    | |- freshRun _ _ (fst ?m, _ :: snd ?m) =>
        assert (Hbody : freshRun chain outer m)
    end.
    { apply freshRun_bind.
      { destruct (commonmarkEnabled settings);
          [apply Hscan | apply freshRun_ret]. }
      intros c1. apply freshRun_bind.
      { destruct (markdownItEnabled settings);
          [apply Hscan | apply freshRun_ret]. }
      intros c2. exists outer. simpl. split; [|reflexivity].
      unfold chain. now rewrite removelast_last. }
    destruct Hbody as (final & Hreplay & Hdone).
    exists final. cbn [snd fst replayFresh]. fold chain. rewrite Hfile.
    cbn [negb].
    destruct (list_eq_dec string_dec chain chain); [auto | congruence].
Qed.

Lemma NoDup_snoc (chain : list string) (file : string) :
  NoDup chain -> processed chain file = false -> NoDup (chain ++ [file]).
Proof.
  intros Hnd Hp.
  assert (Hout : ~ In file chain).
  { intros Hin. apply processed_In in Hin. congruence. }
  clear Hp. induction Hnd as [|x l Hx Hnd IH]; simpl.
  - constructor; [intros [] | constructor].
  - constructor.
    + intros Hin. apply in_app_or in Hin as [Hin | [-> | []]]; [auto|].
      apply Hout. now left.
    + apply IH. intros Hin. apply Hout. now right.
Qed.

Lemma NoDup_removelast (chain : list string) :
  NoDup chain -> NoDup (removelast chain).
Proof.
  induction 1 as [|x l Hx Hnd IH]; [constructor|].
  destruct l as [|y l]; [constructor|].
  change (removelast (x :: y :: l)) with (x :: removelast (y :: l)).
  constructor; [|assumption].
  intros Hin. apply Hx.
  clear - Hin. revert Hin. generalize (y :: l). intros l'.
  induction l' as [|z l' IH]; [intros []|].
  destruct l' as [|w l']; [intros []|].
  change (removelast (z :: w :: l')) with (z :: removelast (w :: l')).
  intros [-> | Hin]; [now left | right; auto].
Qed.

Lemma replayFresh_distinct (log : list event) :
  forall chain final,
    replayFresh chain log = Some final -> NoDup chain -> entriesDistinct log.
Proof.
  unfold entriesDistinct.
  induction log as [|e log IH]; intros chain final Hreplay Hnd;
    [constructor|].
  destruct e as [p b | p | file ps |]; cbn [replayFresh] in Hreplay.
  - constructor; eauto.
  - destruct (processed chain p); [discriminate|]. constructor; eauto.
  - destruct (processed chain file) eqn:Hp; [discriminate|].
    cbn [negb] in Hreplay.
    destruct (list_eq_dec string_dec ps (chain ++ [file])) as [->|];
      [|discriminate].
    pose proof (NoDup_snoc chain file Hnd Hp). constructor; eauto.
  - constructor; [exact I|]. eauto using NoDup_removelast.
Qed.

(** X7.  Started on a file that is not on the list it is handed, a run
    never enters a file that is on the inclusion chain and never reads
    one: a file is not opened again while it is being expanded.  When that
    list has no duplicate, no processed-files list of the run has one. *)
Theorem chain_files_never_reopened :
  forall h settings fuel content file processedFiles,
    processed (orDefault processedFiles []) file = false ->
    let run := execute h settings fuel content file processedFiles in
    (exists final,
        replayFresh (orDefault processedFiles []) (snd run) = Some final
        /\ (forall r, fst run = Done r -> final = orDefault processedFiles []))
    /\ (NoDup (orDefault processedFiles []) -> entriesDistinct (snd run)).
Proof.
  intros h settings fuel content file processedFiles Hfile run.
  pose proof (freshRun_execute h settings fuel content file processedFiles
                Hfile) as Hfresh.
  split; [exact Hfresh|].
  destruct Hfresh as (final & Hreplay & _). intros Hnd.
  exact (replayFresh_distinct _ _ _ Hreplay Hnd).
Qed.

Lemma chain_files_never_reopened_witness :
  entriesDistinct
    (snd (execute mutual_host no_settings 5 mutual_root "/d/root.md" None)).
Proof.
  exact (proj2 (chain_files_never_reopened mutual_host no_settings 5
                  mutual_root "/d/root.md" None eq_refl)
           (NoDup_nil string)).
Defined.

(** X8.  A Style A directive that is the first of its document and whose
    target is a folder (not on the chain) ends the whole run with the read
    error: [existsSync] accepts the folder, [readFileSync] throws, and no
    text is produced, neither for this directive nor for the rest. *)
Theorem folder_target_aborts_run :
  forall h settings fuel content file processedFiles regexResult childName,
    commonmarkEnabled settings = true ->
    exec COMMONMARK_PATTERN content = Some regexResult ->
    capture 3 (groups regexResult) = Some childName ->
    disk h (resolve h (dirname h file) (JS.trim childName)) = Some Directory ->
    processed (orDefault processedFiles [] ++ [file])
      (resolve h (dirname h file) (JS.trim childName)) = false ->
    execute h settings (S (S fuel)) content file processedFiles
    = (Threw (ReadError (resolve h (dirname h file) (JS.trim childName))),
       [Enter file (orDefault processedFiles [] ++ [file])%list;
        ExistsSync (resolve h (dirname h file) (JS.trim childName)) true;
        ReadFileSync (resolve h (dirname h file) (JS.trim childName))]).
Proof.
  intros h settings fuel content file processedFiles regexResult childName
    Hon Hex Hname Hd Hp.
  rewrite execute_S. cbv zeta. rewrite Hon, (scan_step _ _ _ _ _ Hex).
  unfold resolveDirective at 1, fileName.
  rewrite Hname, bind_ret_l, replace_cases. cbv zeta. now rewrite Hd, Hp.
Qed.

Lemma folder_target_aborts_run_witness :
  execute folder_host no_settings 5 "see :(sub) and :(a.md)" "/d/root.md" None
  = (Threw (ReadError "/d/sub"),
     [Enter "/d/root.md" ["/d/root.md"]; ExistsSync "/d/sub" true;
      ReadFileSync "/d/sub"]).
Proof.
  exact (folder_target_aborts_run folder_host no_settings 3
           "see :(sub) and :(a.md)" "/d/root.md" None
           (mkResult 4 ":(sub) " [(3, "sub")]) "sub"
           eq_refl eq_refl eq_refl eq_refl eq_refl).
Defined.

(** ** Settings *)

Lemma bind_ext {A B : Type} (m : M A) (f g : A -> M B) :
  (forall a, f a = g a) -> bind m f = bind m g.
Proof. intros H. destruct m as [[a | e |] l]; simpl; now rewrite ?H. Qed.

Lemma scan_ext (pattern : regex) (step1 step2 : result -> string -> M string) :
  (forall regexResult content,
      step1 regexResult content = step2 regexResult content) ->
  forall fuel content,
    scan fuel pattern step1 content = scan fuel pattern step2 content.
Proof.
  intros Hstep. induction fuel as [|fuel IH]; intros content; simpl;
    [reflexivity|].
  destruct (exec pattern content) as [regexResult|]; [|reflexivity].
  rewrite Hstep. now apply bind_ext.
Qed.

(** X9.  A run depends on the settings only through seven values: the two
    style switches, the two message templates, the quote switch, the
    citation switch and the citation label, each with its default when
    unset (an empty template or label counts as unset).  [customPattern]
    and [omissionIndicator] are never read. *)
Theorem settings_read_through_seven_values :
  forall h settings settings' fuel content file processedFiles,
    effective settings = effective settings' ->
    execute h settings fuel content file processedFiles
    = execute h settings' fuel content file processedFiles.
Proof.
  intros h settings settings' fuel content file processedFiles Heff.
  unfold effective in Heff.
  injection Heff as HA HB Hnf Hcirc Hq Hsrc Hlabel.
  revert content file processedFiles.
  induction fuel as [|fuel IH]; intros content file processedFiles;
    [reflexivity|].
  rewrite !execute_S. cbv zeta. rewrite HA, HB.
  assert (Hstep : forall chain name start end_ quote regexResult c,
             resolveDirective h settings (execute h settings fuel)
               (dirname h file) file chain name start end_ quote regexResult c
             = resolveDirective h settings' (execute h settings' fuel)
                 (dirname h file) file chain name start end_ quote
                 regexResult c).
  { intros chain name start end_ quote regexResult c.
    unfold resolveDirective. apply bind_ext. intros childName.
    rewrite !replace_cases. cbv zeta.
    unfold circularTemplate in Hcirc. rewrite Hnf, Hcirc, Hsrc, Hlabel.
    assert (Hshould : forall q, shouldQuote settings q = shouldQuote settings' q).
    { intros q. unfold shouldQuote. now rewrite Hq. }
    rewrite Hshould.
    destruct (disk h _) as [[original|]|]; try reflexivity.
    destruct (processed chain _); [reflexivity|]. now rewrite IH. }
  assert (Hscan : forall pattern chain name start end_ quote c,
             scan fuel pattern
               (resolveDirective h settings (execute h settings fuel)
                  (dirname h file) file chain name start end_ quote) c
             = scan fuel pattern
                 (resolveDirective h settings' (execute h settings' fuel)
                    (dirname h file) file chain name start end_ quote) c).
  { intros. apply scan_ext. intros. apply Hstep. }
  apply bind_ext. intros _. rewrite Hscan.
  apply bind_ext. intros c1. now rewrite Hscan.
Qed.

Lemma settings_read_through_seven_values_witness :
  execute mutual_host
    (mkSettings (Some true) None (Some MARKDOWN_IT_PATTERN) (Some "") None
       (Some false) None (Some "Source") (Some true))
    5 mutual_root "/d/root.md" None
  = execute mutual_host no_settings 5 mutual_root "/d/root.md" None.
Proof.
  exact (settings_read_through_seven_values mutual_host _ no_settings 5
           mutual_root "/d/root.md" None eq_refl).
Defined.

(** ** Range selector: the edges *)

Lemma splitLines_nonempty (s : string) : JS.splitLines s <> [].
Proof.
  destruct s as [|c s]; cbn [JS.splitLines]; [discriminate|].
  destruct (Ascii.eqb c JS.LF); [discriminate|].
  destruct s as [|d s]; [discriminate|].
  destruct (Ascii.eqb c JS.CR && Ascii.eqb d JS.LF); [discriminate|].
  unfold JS.push. now destruct (JS.splitLines (String d s)).
Qed.

Lemma slice_beyond {A : Type} (l : list A) (a : Z) (end_ : option JS.number) :
  (Z.of_nat (List.length l) <= a)%Z -> JS.slice l (JS.Num a) end_ = [].
Proof.
  intros Ha. unfold JS.slice. cbn [JS.relIndex].
  destruct (Z.ltb_spec a 0) as [|_]; [lia|].
  rewrite Nat.min_r by lia. rewrite skipn_all. apply firstn_nil.
Qed.

Lemma slice_from {A : Type} (l : list A) (a : Z) :
  (0 <= a)%Z -> JS.slice l (JS.Num a) None = skipn (Z.to_nat a) l.
Proof.
  intros Ha. unfold JS.slice. cbn [JS.relIndex].
  destruct (Z.ltb_spec a 0) as [|_]; [lia|].
  destruct (Nat.le_gt_cases (List.length l) (Z.to_nat a)) as [Hge | Hlt].
  - rewrite Nat.min_r by lia. rewrite skipn_all, (skipn_all2 l) by lia.
    apply firstn_nil.
  - rewrite Nat.min_l by lia. apply firstn_all2. rewrite length_skipn. lia.
Qed.

Lemma slice_last_line {A : Type} (l : list A) (m : Z) (d : A) :
  l <> [] -> (Z.of_nat (List.length l) <= m)%Z ->
  JS.slice l (JS.Num (-1)) (Some (JS.Num m)) = [last l d].
Proof.
  intros Hl Hm. unfold JS.slice. cbn [JS.relIndex].
  destruct (Z.ltb_spec m 0) as [|_]; [lia|].
  change (-1 <? 0)%Z with true. cbv iota.
  rewrite (Nat.min_r (Z.to_nat m)) by lia.
  replace (Z.to_nat (Z.max (Z.of_nat (List.length l) + -1) 0))
    with (List.length l - 1) by lia.
  clear m Hm. induction l as [|x l IH]; [congruence|].
  destruct l as [|y l]; [reflexivity|].
  specialize (IH ltac:(discriminate)).
  change (last (x :: y :: l) d) with (last (y :: l) d). rewrite <- IH.
  cbn [List.length]. rewrite !Nat.sub_succ, !Nat.sub_0_r.
  replace (S (S (List.length l)) - S (List.length l)) with 1 by lia.
  replace (S (List.length l) - List.length l) with 1 by lia.
  reflexivity.
Qed.

(** X10.  Line numbers outside the text.  A start line beyond the last
    line selects nothing, whatever the end spec; start line 0 selects
    nothing without an end spec, but with an end line at or beyond the
    last line (and no word indices) it selects the last line of the text:
    [slice] counts the index -1 from the end. *)
Theorem sliceLines_line_outside_text :
  forall content startSpec n,
    startSpec <> "" -> specLine startSpec = JS.Num n ->
    ((Z.of_nat (List.length (JS.splitLines content)) < n)%Z ->
     forall endSpec, sliceLines content (Some startSpec) endSpec = "")
    /\ (n = 0%Z ->
        (forall endSpec, JS.truthy endSpec = false ->
           sliceLines content (Some startSpec) endSpec = "")
        /\ (forall endSpec m,
               endSpec <> "" -> specLine endSpec = JS.Num m ->
               (Z.of_nat (List.length (JS.splitLines content)) <= m)%Z ->
               specWord startSpec = None -> specWord endSpec = None ->
               sliceLines content (Some startSpec) (Some endSpec)
               = last (JS.splitLines content) "")).
Proof.
  intros content startSpec n Hs Hn. split; [|intros ->; split].
  - intros Hbeyond endSpec.
    destruct (JS.truthy endSpec) eqn:Hend.
    + destruct endSpec as [[|c e]|]; try discriminate.
      rewrite sliceLines_with_end by (assumption || discriminate).
      rewrite Hn. cbn [JS.minus]. now rewrite slice_beyond by lia.
    + rewrite sliceLines_without_end by assumption.
      rewrite Hn. cbn [JS.minus JS.plus]. now rewrite slice_beyond by lia.
  - intros endSpec Hend. rewrite sliceLines_without_end by assumption.
    rewrite Hn. cbn [JS.minus JS.plus Z.sub Z.add Z.opp Z.pos_sub].
    unfold JS.slice. cbn [JS.relIndex]. change (0 <? 0)%Z with false.
    cbv iota. now rewrite Nat.min_0_l.
  - intros endSpec m He Hm Hlen Hsw Hew.
    rewrite sliceLines_with_end by assumption.
    rewrite Hn, Hm. cbn [JS.minus Z.sub Z.add Z.opp].
    rewrite (slice_last_line _ m "" (splitLines_nonempty content) Hlen).
    unfold startWordOf. now rewrite Hsw, Hew.
Qed.

Lemma sliceLines_line_outside_text_witness :
  sliceLines three_lines (Some "0") (Some "9") = "g h i".
Proof.
  exact (proj2 (proj2 (sliceLines_line_outside_text three_lines "0" 0%Z
                         ltac:(discriminate) eq_refl) eq_refl)
           "9" 9%Z ltac:(discriminate) eq_refl ltac:(vm_compute; discriminate)
           eq_refl eq_refl).
Defined.

Lemma update_last {A : Type} (middle : list A) (x v : A) :
  JS.update (List.length middle) v (middle ++ [x]) = (middle ++ [v])%list.
Proof. induction middle as [|y middle IH]; simpl; [reflexivity | now rewrite IH]. Qed.

(** X11.  Word indices on a range of two or more lines: the first line is
    cut to its words from index W on, the last line to its words before
    index V, both re-joined with single spaces, and the lines between are
    kept as they are.  With an end word index the first line is re-joined
    even when W is 0. *)
Theorem sliceLines_words_across_lines :
  forall content startSpec endSpec n m w first middle final,
    startSpec <> "" -> endSpec <> "" ->
    specLine startSpec = JS.Num n -> specLine endSpec = JS.Num m ->
    (1 <= n)%Z -> (0 <= m)%Z ->
    linesFromTo (JS.splitLines content) n m
    = (first :: middle ++ [final])%list ->
    startWordOf startSpec = JS.Num w -> (0 <= w)%Z ->
    (forall v, specWord endSpec = Some (JS.Num v) -> (0 <= v)%Z ->
       sliceLines content (Some startSpec) (Some endSpec)
       = JS.join JS.nl
           (JS.join " " (skipn (Z.to_nat w) (JS.splitWs first))
            :: middle
            ++ [JS.join " " (firstn (Z.to_nat v) (JS.splitWs final))]))
    /\ (specWord endSpec = None -> (0 < w)%Z ->
        sliceLines content (Some startSpec) (Some endSpec)
        = JS.join JS.nl
            (JS.join " " (skipn (Z.to_nat w) (JS.splitWs first))
             :: middle ++ [final])).
Proof.
  intros content startSpec endSpec n m w first middle final Hs He Hn Hm Hn1
    Hm0 Hlines Hw Hw0.
  rewrite sliceLines_with_end by assumption.
  rewrite Hn, Hm, Hw. cbn [JS.minus]. rewrite slice_between by lia.
  fold (linesFromTo (JS.splitLines content) n m). rewrite Hlines.
  assert (Hlen : forall x : string,
             List.length (x :: middle ++ [final]) = S (S (List.length middle))).
  { intros x. cbn [List.length]. rewrite length_app. simpl. lia. }
  split.
  - intros v -> Hv0. unfold sliceWords. rewrite orb_true_r.
    rewrite Hlen. cbn [Nat.eqb JS.update]. rewrite Hlen.
    change (1 <? S (S (List.length middle))) with true. cbv iota.
    replace (S (S (List.length middle)) - 1) with (S (List.length middle))
      by lia.
    cbn [nth JS.update]. rewrite nth_middle, update_last.
    rewrite slice_from, slice_between by lia.
    cbn [Z.to_nat skipn]. now rewrite Nat.sub_0_r.
  - intros -> Hpos. unfold sliceWords. cbn [JS.positive].
    destruct (Z.ltb_spec 0 w) as [_|]; [|lia]. cbn [orb].
    rewrite Hlen. cbn [Nat.eqb JS.update].
    now rewrite slice_from by lia.
Qed.

Lemma sliceLines_words_across_lines_witness :
  sliceLines three_lines (Some "1.0") (Some "3.1")
  = "a b c" ++ JS.nl ++ "d e f" ++ JS.nl ++ "g".
Proof.
  exact (proj1 (sliceLines_words_across_lines three_lines "1.0" "3.1" 1%Z 3%Z
                  0%Z "a b c" ["d e f"] "g h i"
                  ltac:(discriminate) ltac:(discriminate) eq_refl eq_refl
                  ltac:(lia) ltac:(lia) eq_refl eq_refl ltac:(lia))
           1%Z eq_refl ltac:(lia)).
Defined.

Lemma join_push (sep : string) (c : ascii) (pieces : list string) :
  pieces <> [] ->
  JS.join sep (JS.push c pieces) = String c (JS.join sep pieces).
Proof.
  destruct pieces as [|w [|w' ws]]; [congruence | reflexivity | reflexivity].
Qed.

Lemma join_splitLines (s : string) :
  crlfFree s = true -> JS.join JS.nl (JS.splitLines s) = s.
Proof.
  induction s as [|c s IH]; [reflexivity|].
  cbn [crlfFree JS.splitLines]. intros H.
  apply andb_prop in H as [Hc Hs]. specialize (IH Hs).
  destruct (Ascii.eqb_spec c JS.LF) as [-> | Hlf].
  - pose proof (splitLines_nonempty s) as Hne.
    destruct (JS.splitLines s) as [|x xs] eqn:Hsplit; [congruence|].
    change (JS.join JS.nl ("" :: x :: xs))
      with (JS.nl ++ JS.join JS.nl (x :: xs)).
    now rewrite IH.
  - destruct s as [|d s]; [reflexivity|].
    apply negb_true_iff in Hc. rewrite Hc.
    rewrite join_push by apply splitLines_nonempty. now rewrite IH.
Qed.

(** X12.  From line 1 to the last line or beyond, without word indices,
    the selection is every line of the text joined by line feeds: the text
    itself when no line of it ends in CR LF. *)
Theorem sliceLines_all_lines :
  forall content startSpec endSpec m,
    startSpec <> "" -> endSpec <> "" ->
    specLine startSpec = JS.Num 1 -> specWord startSpec = None ->
    specLine endSpec = JS.Num m -> specWord endSpec = None ->
    (Z.of_nat (List.length (JS.splitLines content)) <= m)%Z ->
    sliceLines content (Some startSpec) (Some endSpec)
    = JS.join JS.nl (JS.splitLines content)
    /\ (crlfFree content = true ->
        sliceLines content (Some startSpec) (Some endSpec) = content).
Proof.
  intros content startSpec endSpec m Hs He Hn Hsw Hm Hew Hlen.
  assert (Hall : sliceLines content (Some startSpec) (Some endSpec)
                 = JS.join JS.nl (JS.splitLines content)).
  { rewrite sliceLines_with_end by assumption.
    rewrite Hn, Hm. cbn [JS.minus Z.sub Z.add Z.opp Z.pos_sub].
    rewrite slice_between by lia. cbn [Z.to_nat skipn].
    rewrite firstn_all2 by lia.
    unfold startWordOf. rewrite Hsw, Hew. apply sliceWords_whole_lines. }
  split; [exact Hall|].
  intros Hfree. rewrite Hall. now apply join_splitLines.
Qed.

Lemma sliceLines_all_lines_witness :
  sliceLines three_lines (Some "1") (Some "7") = three_lines.
Proof.
  exact (proj2 (sliceLines_all_lines three_lines "1" "7" 7%Z
                  ltac:(discriminate) ltac:(discriminate) eq_refl eq_refl
                  eq_refl eq_refl ltac:(vm_compute; discriminate))
           eq_refl).
Defined.

(** ** The earlier versions *)







(** ** White space after a directive *)

Lemma exec_from_here (r : regex) (s : string) :
  forall (idx : nat) (regexResult : result),
    exec_from r s idx = Some regexResult ->
    exists before after,
      s = before ++ whole regexResult ++ after
      /\ idx + String.length before = index regexResult
      /\ match_here r (whole regexResult ++ after)
         = Some (after, groups regexResult).
Proof.
  assert (Hhere : forall s idx rest cs,
             match_here r s = Some (rest, cs) ->
             let regexResult :=
               mkResult idx (JS.take (String.length s - String.length rest) s) cs in
             exists before after,
               s = before ++ whole regexResult ++ after
               /\ idx + String.length before = index regexResult
               /\ match_here r (whole regexResult ++ after)
                  = Some (after, groups regexResult)).
  { intros s0 idx rest cs Hm. pose proof Hm as Hsound.
    apply run_sound in Hsound as (t & s' & cs' & Hs & _ & [= <- <-] & _).
    subst s0. cbn [whole index groups].
    rewrite length_append, Nat.add_sub, take_append.
    exists "", s'. simpl. auto. }
  induction s as [|c s IH]; intros idx regexResult; cbn [exec_from];
    (destruct (match_here r _) as [[rest cs]|] eqn:Hm;
     [intros [= <-]; exact (Hhere _ idx _ _ Hm) |]).
  - discriminate.
  - intros H. apply IH in H as (before & after & Hs & Hidx & Hm').
    exists (String c before), after. simpl. rewrite <- Hs.
    repeat split; [lia | assumption].
Qed.

Lemma run_cat_tail {R : Type} (r1 r2 : regex) (s : string) (cs : captures)
    (kont : string -> captures -> option R) (x : R) :
  run (Cat r1 r2) s cs kont = Some x ->
  exists s' cs', run r2 s' cs' kont = Some x.
Proof.
  cbn [run]. intros H.
  apply run_sound in H as (t & s' & cs' & _ & _ & H & _). eauto.
Qed.

(** With a continuation that cannot fail, [k*] takes every character of
    the class there is. *)
Lemma rep_greedy_longest {R : Type} (k : cls) (s : string)
    (kont : string -> option R) :
  (forall s', kont s' <> None) ->
  exists t s',
    s = t ++ s' /\ allIn k t = true /\ rep_greedy k s kont = kont s'
    /\ match s' with String c _ => cls_match k c = false | "" => True end.
Proof.
  intros Htotal. induction s as [|c s IH]; cbn [rep_greedy].
  - exists "", "". auto.
  - destruct (cls_match k c) eqn:Hc.
    + destruct IH as (t & s' & -> & Ht & Hrep & Hhead).
      exists (String c t), s'. cbn [allIn append]. rewrite Hc, Ht, Hrep.
      repeat split; try assumption.
      destruct (kont s') eqn:Hk; [reflexivity | now destruct (Htotal s')].
    + exists "", (String c s). auto.
Qed.

Lemma space_then_optional {R : Type} (body : regex) (s : string)
    (cs : captures) (kont : string -> captures -> option R) (x : R) :
  (forall s' cs', kont s' cs' <> None) ->
  run (Cat (Rep Space 0 false) (Cat (Opt body) Empty)) s cs kont = Some x ->
  (exists s', run body s' cs kont = Some x)
  \/ (exists s', kont s' cs = Some x /\ JS.trimStart s' = s').
Proof.
  intros Htotal H.
  change (rep_greedy Space s
            (fun s'' => match run body s'' cs (fun a b => kont a b) with
                        | Some y => Some y
                        | None => kont s'' cs
                        end) = Some x) in H.
  match type of H with
  | rep_greedy _ _ ?k = _ =>
      destruct (rep_greedy_longest Space s k) as (t & s' & _ & _ & Hrep & Hhead)
  end.
  { intros s'. destruct (run body s' cs _); [discriminate | apply Htotal]. }
  rewrite Hrep in H.
  destruct (run body s' cs (fun a b => kont a b)) as [y|] eqn:Hbody.
  - left. exists s'. injection H as <-. exact Hbody.
  - right. exists s'. split; [exact H|].
    destruct s' as [|c s']; [reflexivity|]. cbn [JS.trimStart].
    cbn [cls_match] in Hhead. now rewrite Hhead.
Qed.

(** X15.  A Style A directive without a quote modifier takes with it all
    the white space that follows its closing parenthesis, line breaks
    included: what is left after the match does not begin with white
    space, so the included text is glued to what follows. *)
Theorem directive_takes_following_space :
  forall content regexResult,
    exec COMMONMARK_PATTERN content = Some regexResult ->
    capture 6 (groups regexResult) = None ->
    exists before after,
      content = before ++ whole regexResult ++ after
      /\ String.length before = index regexResult
      /\ JS.trimStart after = after.
Proof.
  intros content regexResult Hex Hnone.
  apply exec_from_here in Hex as (before & after & Hs & Hidx & Hhere).
  exists before, after. repeat split; [exact Hs | exact Hidx |].
  unfold match_here, COMMONMARK_PATTERN, Seq in Hhere.
  cbn [fold_right] in Hhere.
  do 6 (apply run_cat_tail in Hhere as (? & ? & Hhere)).
  unfold QUOTE_MODIFIER in Hhere.
  apply space_then_optional in Hhere as [(s' & Hbody) | (s' & Hk & Hs')];
    [| injection Hk as <- _; exact Hs' | discriminate].
  apply run_sets_groups in Hbody as (s'' & cs'' & Hk & _ & Hset).
  injection Hk as _ ->.
  destruct (Hset 6); [simpl; auto | exact Hnone].
Qed.

Lemma directive_takes_following_space_witness :
  exists before after,
    "x :(a.md) y" = before ++ ":(a.md) " ++ after
    /\ String.length before = 2
    /\ JS.trimStart after = after.
Proof.
  exact (directive_takes_following_space "x :(a.md) y"
           (mkResult 2 ":(a.md) " [(3, "a.md")]) eq_refl eq_refl).
Defined.

(** ** Whole runs *)

Lemma fst_bind {A B : Type} (m : M A) (f : A -> M B) :
  fst (bind m f)
  = match fst m with
    | Done a => fst (f a)
    | Threw e => Threw e
    | OutOfFuel => OutOfFuel
    end.
Proof.
  destruct m as [[a | e |] l]; simpl; [|reflexivity..]. now destruct (f a).
Qed.

Lemma bind_pure {A B : Type} (a : A) (log : list event) (f : A -> M B) :
  bind (Done a, log) f = (fst (f a), (log ++ snd (f a))%list).
Proof. simpl. now destruct (f a). Qed.

(** X16.  A document with one Style A directive, for a file that is there,
    carries no directive itself (in the range selected) and leaves none
    behind once it is in place: the run reads that file once, enters it
    once and returns the document with the directive's span exchanged for
    the file's selected lines, quoted when the quote mode applies. *)
Theorem single_include_is_spliced_in :
  forall h settings fuel content file processedFiles regexResult childName
         original,
    let chain := (orDefault processedFiles [] ++ [file])%list in
    let childFile := resolve h (dirname h file) (JS.trim childName) in
    let startLine := capture 4 (groups regexResult) in
    let selected :=
      sliceLines original startLine (capture 5 (groups regexResult)) in
    let childContent :=
      if shouldQuote settings (capture 6 (groups regexResult))
      then formatQuote h selected childFile (sourceLabelOf settings)
             (includeSourceOf settings) startLine (Some original)
      else selected in
    commonmarkEnabled settings = true ->
    exec COMMONMARK_PATTERN content = Some regexResult ->
    capture 3 (groups regexResult) = Some childName ->
    disk h childFile = Some (File original) ->
    processed chain childFile = false ->
    exec COMMONMARK_PATTERN selected = None ->
    exec MARKDOWN_IT_PATTERN selected = None ->
    exec COMMONMARK_PATTERN (splice content regexResult childContent) = None ->
    exec MARKDOWN_IT_PATTERN (splice content regexResult childContent) = None ->
    execute h settings (S (S (S fuel))) content file processedFiles
    = (Done (splice content regexResult childContent),
       [Enter file chain; ExistsSync childFile true; ReadFileSync childFile;
        Enter childFile (chain ++ [childFile])%list; Leave; Leave]).
Proof.
  intros h settings fuel content file processedFiles regexResult childName
    original chain childFile startLine selected childContent HA Hex Hname Hd
    Hp HselA HselB HoutA HoutB.
  rewrite execute_S. cbv zeta. fold chain.
  rewrite HA, (scan_step _ _ _ _ _ Hex).
  unfold resolveDirective at 1, fileName.
  rewrite Hname, bind_ret_l, replace_cases. cbv zeta.
  fold childFile startLine. rewrite Hd, Hp.
  change (sliceLines original startLine (capture 5 (groups regexResult)))
    with selected.
  rewrite (execute_clean h settings (S fuel) selected childFile (Some chain))
    by (intros _; split; [assumption | lia]).
  cbn [fst snd orDefault]. fold childContent.
  rewrite bind_pure, (scan_no_match _ _ _ _ HoutA). cbn [fst snd ret].
  rewrite bind_pure.
  destruct (markdownItEnabled settings);
    [rewrite (scan_no_match _ _ _ _ HoutB)|]; reflexivity.
Qed.

Lemma single_include_is_spliced_in_witness :
  execute folder_host no_settings 5 "x :(a.md) y" "/d/root.md" None
  = (Done "x Ay",
     [Enter "/d/root.md" ["/d/root.md"]; ExistsSync "/d/a.md" true;
      ReadFileSync "/d/a.md"; Enter "/d/a.md" ["/d/root.md"; "/d/a.md"];
      Leave; Leave]).
Proof.
  exact (single_include_is_spliced_in folder_host no_settings 2 "x :(a.md) y"
           "/d/root.md" None (mkResult 2 ":(a.md) " [(3, "a.md")]) "a.md" "A"
           eq_refl eq_refl eq_refl eq_refl eq_refl eq_refl eq_refl eq_refl
           eq_refl).
Defined.

Lemma reopening_child (h : Host) (settings : IncludeSettings) (root : string)
    (fuel : nat) :
  let a := resolve h (dirname h root) "a.md" in
  let e := resolve h (dirname h a) "e.md" in
  commonmarkEnabled settings = true ->
  markdownItEnabled settings = true ->
  shouldQuote settings None = false ->
  disk h e = Some (File "") ->
  processed [root; a] e = false ->
  match fst (execute h settings fuel reopening a (Some [root])) with
  | Done expanded => expanded = ":(a.md)"
  | Threw _ => False
  | OutOfFuel => True
  end.
Proof.
  intros a e HA HB Hq He Hfresh_e.
  destruct fuel as [|fuel]; [exact I|].
  rewrite execute_S. cbv zeta. rewrite bind_emit. cbn [fst orDefault app].
  rewrite HA, HB.
  destruct fuel as [|fuel]; [exact I|].
  rewrite (scan_no_match fuel COMMONMARK_PATTERN _ reopening eq_refl).
  rewrite bind_ret_l.
  rewrite (scan_step fuel MARKDOWN_IT_PATTERN _ reopening
             (mkResult 1 "!!!include(e.md)!!!" [(1, "e.md")]) eq_refl).
  rewrite !fst_bind.
  unfold resolveDirective at 1, fileName. cbn [groups capture Nat.eqb].
  rewrite bind_ret_l, replace_cases. cbv zeta.
  change (JS.trim "e.md") with "e.md". fold e.
  rewrite He, Hfresh_e. cbn [fst].
  destruct fuel as [|fuel].
  - rewrite execute_S. cbv zeta. rewrite bind_emit. cbn [fst].
    now rewrite HA.
  - rewrite execute_clean by (intros _; split; [reflexivity | lia]).
    cbn [fst]. rewrite Hq.
    change (splice reopening _ "") with ":(a.md)".
    rewrite (scan_no_match fuel MARKDOWN_IT_PATTERN _ ":(a.md)" eq_refl).
    reflexivity.
Qed.

(** X17.  The check against circular references does not bound the loops.
    Let [a.md] hold [reopening] and [e.md] be empty, both styles be on and
    the quote mode off.  Expanded on its own, [a.md] gives [:(a.md)]: its
    Style B directive is replaced by nothing after the Style A loop of
    that file is over.  In a document that consists of the directive
    [:(a.md)] the Style A loop therefore puts the directive back in its own
    place at every pass, and the run does not end, whatever the fuel. *)
Theorem reopened_directive_never_ends :
  forall h settings root,
    let a := resolve h (dirname h root) "a.md" in
    let e := resolve h (dirname h a) "e.md" in
    commonmarkEnabled settings = true ->
    markdownItEnabled settings = true ->
    shouldQuote settings None = false ->
    disk h a = Some (File reopening) ->
    disk h e = Some (File "") ->
    processed [root] a = false ->
    processed [root; a] e = false ->
    forall fuel,
      fst (execute h settings fuel ":(a.md)" root None) = OutOfFuel.
Proof.
  intros h settings root a e HA HB Hq Ha He Hfresh_a Hfresh_e [|fuel];
    [reflexivity|].
  rewrite execute_S. cbv zeta. rewrite bind_emit. cbn [fst orDefault app].
  rewrite HA, fst_bind.
  match goal with
  | |- match fst ?m with _ => _ end = _ =>
      assert (Hloop : fst m = OutOfFuel); [|now rewrite Hloop]
  end.
  generalize fuel at 1. intros f. induction f as [|f IH]; [reflexivity|].
  rewrite (scan_step f COMMONMARK_PATTERN _ ":(a.md)"
             (mkResult 0 ":(a.md)" [(3, "a.md")]) eq_refl).
  rewrite fst_bind.
  unfold resolveDirective at 1, fileName. cbn [groups capture Nat.eqb].
  rewrite bind_ret_l, replace_cases. cbv zeta.
  change (JS.trim "a.md") with "a.md". fold a.
  rewrite Ha, Hfresh_a. cbn [fst].
  change (sliceLines reopening None None) with reopening.
  pose proof (reopening_child h settings root fuel HA HB Hq He Hfresh_e)
    as Hchild.
  cbv zeta in Hchild. fold a in Hchild.
  destruct (fst (execute h settings fuel reopening a (Some [root])))
    as [expanded | |]; [subst expanded | contradiction | reflexivity].
  rewrite Hq. change (splice ":(a.md)" _ ":(a.md)") with ":(a.md)".
  exact IH.
Qed.

Lemma reopened_directive_never_ends_witness :
  fst (execute looping_host no_settings 50 ":(a.md)" "/d/root.md" None)
  = OutOfFuel.
Proof.
  exact (reopened_directive_never_ends looping_host no_settings "/d/root.md"
           eq_refl eq_refl eq_refl eq_refl eq_refl eq_refl eq_refl 50).
Defined.

(** ** The directive pattern across versions *)

Lemma rep_greedy_ext {R : Type} (k : cls) (s : string)
    (kont kont' : string -> option R) :
  (forall s', kont s' = kont' s') ->
  rep_greedy k s kont = rep_greedy k s kont'.
Proof.
  intros H. induction s as [|c s IH]; cbn [rep_greedy]; [apply H|].
  now rewrite IH, H.
Qed.

Lemma rep_lazy_ext {R : Type} (k : cls) (s : string)
    (kont kont' : string -> option R) :
  (forall s', kont s' = kont' s') ->
  rep_lazy k s kont = rep_lazy k s kont'.
Proof.
  intros H. induction s as [|c s IH]; cbn [rep_lazy]; rewrite H;
    [reflexivity|]. now rewrite IH.
Qed.

Lemma run_ext {R : Type} (r : regex) :
  forall (s : string) (cs : captures)
         (kont kont' : string -> captures -> option R),
    (forall s' cs', kont s' cs' = kont' s' cs') ->
    run r s cs kont = run r s cs kont'.
Proof.
  induction r as [| l | k min lazy | r1 IH1 r2 IH2 | r1 IH1 r2 IH2 | r IH
                 | n r IH];
    intros s cs kont kont' H; cbn [run].
  - apply H.
  - destruct (lit_match l s); [apply H | reflexivity].
  - destruct (rep_exact k min s) as [s'|]; [|reflexivity].
    destruct lazy; [apply rep_lazy_ext | apply rep_greedy_ext];
      intros; apply H.
  - apply IH1. intros s' cs'. now apply IH2.
  - now rewrite (IH1 s cs kont kont' H), (IH2 s cs kont kont' H).
  - now rewrite (IH s cs kont kont' H), H.
  - apply IH. intros s' cs'. apply H.
Qed.

Lemma rep_greedy_then {A B : Type} (g : A -> option B) (k : cls) (s : string)
    (kont : string -> option A) :
  (forall x, g x <> None) ->
  rep_greedy k s (fun s' => andThen g (kont s'))
  = andThen g (rep_greedy k s kont).
Proof.
  intros Hg. induction s as [|c s IH]; cbn [rep_greedy]; [reflexivity|].
  destruct (cls_match k c); [|reflexivity]. rewrite IH.
  destruct (rep_greedy k s kont) as [x|]; [|reflexivity]. cbn [andThen].
  destruct (g x) eqn:Hx; [reflexivity | now destruct (Hg x)].
Qed.

Lemma rep_lazy_then {A B : Type} (g : A -> option B) (k : cls) (s : string)
    (kont : string -> option A) :
  (forall x, g x <> None) ->
  rep_lazy k s (fun s' => andThen g (kont s'))
  = andThen g (rep_lazy k s kont).
Proof.
  intros Hg. induction s as [|c s IH]; cbn [rep_lazy].
  - destruct (kont "") as [x|]; [|reflexivity]. cbn [andThen].
    destruct (g x) eqn:Hx; [reflexivity | now destruct (Hg x)].
  - destruct (kont (String c s)) as [x|]; cbn [andThen].
    + destruct (g x) eqn:Hx; [reflexivity | now destruct (Hg x)].
    + destruct (cls_match k c); [apply IH | reflexivity].
Qed.

(** A step that cannot fail, put after the continuation, does not change
    which alternative the matcher settles on. *)
Lemma run_then {A B : Type} (g : A -> option B) (r : regex) :
  (forall x, g x <> None) ->
  forall (s : string) (cs : captures) (kont : string -> captures -> option A),
    run r s cs (fun s' cs' => andThen g (kont s' cs'))
    = andThen g (run r s cs kont).
Proof.
  intros Hg.
  induction r as [| l | k min lazy | r1 IH1 r2 IH2 | r1 IH1 r2 IH2 | r IH
                 | n r IH];
    intros s cs kont; cbn [run].
  - reflexivity.
  - now destruct (lit_match l s).
  - destruct (rep_exact k min s) as [s'|]; [|reflexivity].
    destruct lazy;
      [apply (rep_lazy_then g k s' (fun s'' => kont s'' cs) Hg)
      | apply (rep_greedy_then g k s' (fun s'' => kont s'' cs) Hg)].
  - rewrite <- IH1. apply run_ext. intros s' cs'. apply IH2.
  - rewrite IH1, IH2. destruct (run r1 s cs kont) as [x|]; [|reflexivity].
    cbn [andThen]. destruct (g x) eqn:Hx; [reflexivity | now destruct (Hg x)].
  - rewrite IH. destruct (run r s cs kont) as [x|]; [|reflexivity].
    cbn [andThen]. destruct (g x) eqn:Hx; [reflexivity | now destruct (Hg x)].
  - apply (IH s cs (fun s' cs' => kont s' ((n, JS.take (String.length s - String.length s') s) :: cs'))).
Qed.

Lemma run_seq_app {R : Type} (pre post : list regex) :
  forall (s : string) (cs : captures) (kont : string -> captures -> option R),
    run (Seq (pre ++ post)) s cs kont
    = run (Seq pre) s cs (fun s' cs' => run (Seq post) s' cs' kont).
Proof.
  induction pre as [|a pre IH]; intros s cs kont; [reflexivity|].
  cbn [app Seq fold_right run]. apply run_ext. intros s' cs'. apply IH.
Qed.

Lemma modifier_tail_total (s : string) (cs : captures) :
  run (Seq [Rep Space 0 false; QUOTE_MODIFIER 6]) s cs
    (fun rest cs' => Some (rest, cs')) <> None.
Proof.
  unfold QUOTE_MODIFIER.
  match goal with
  | |- run (Seq [_; Opt ?body]) _ _ ?kont <> None =>
      change (rep_greedy Space s
                (fun s'' => match run body s'' cs (fun a b => kont a b) with
                            | Some y => Some y
                            | None => kont s'' cs
                            end) <> None);
      match goal with
      | |- rep_greedy _ _ ?k <> None =>
          destruct (rep_greedy_longest Space s k)
            as (t & s' & _ & _ & -> & _)
      end
  end.
  - intros s'. now destruct (run _ s' cs _).
  - now destruct (run _ s' cs _).
Qed.

Lemma match_here_with_modifier (s : string) :
  match_here COMMONMARK_PATTERN s
  = andThen
      (fun p => run (Seq [Rep Space 0 false; QUOTE_MODIFIER 6]) (fst p) (snd p)
                  (fun rest cs => Some (rest, cs)))
      (match_here V2.COMMONMARK_PATTERN s).
Proof.
  unfold match_here. rewrite <- run_then.
  - exact (run_seq_app
             [Lit ":";
              Opt (Seq [Lit "["; Group 1 (Rep (NoneOf "|]") 0 false);
                        Opt (Lit "|"); Group 2 (Rep (NoneOf "]") 0 false);
                        Lit "]"]);
              Lit "(";
              Group 3 (Rep (NoneOf ")#") 1 false);
              Opt (Seq [Lit "#L"; Group 4 LINE_SPEC;
                        Opt (Seq [Lit "-"; Group 5 LINE_SPEC])]);
              Lit ")"]
             [Rep Space 0 false; QUOTE_MODIFIER 6] s []
             (fun rest cs => Some (rest, cs))).
  - intros [rest cs]. apply modifier_tail_total.
Qed.

Lemma exec_from_with_modifier (s : string) :
  forall idx,
    match exec_from V2.COMMONMARK_PATTERN s idx with
    | None => exec_from COMMONMARK_PATTERN s idx = None
    | Some old =>
        exists new extra,
          exec_from COMMONMARK_PATTERN s idx = Some new
          /\ index new = index old
          /\ whole new = whole old ++ extra
          /\ Lang (Seq [Rep Space 0 false; QUOTE_MODIFIER 6]) extra
          /\ (forall n, n <> 6 ->
                        capture n (groups new) = capture n (groups old))
    end.
Proof.
  assert (Hhere : forall s0 rest2 cs2,
             match_here V2.COMMONMARK_PATTERN s0 = Some (rest2, cs2) ->
             exists rest cs extra,
               match_here COMMONMARK_PATTERN s0 = Some (rest, cs)
               /\ JS.take (String.length s0 - String.length rest) s0
                  = JS.take (String.length s0 - String.length rest2) s0
                    ++ extra
               /\ Lang (Seq [Rep Space 0 false; QUOTE_MODIFIER 6]) extra
               /\ (forall n, n <> 6 -> capture n cs = capture n cs2)).
  { intros s0 rest2 cs2 H2. rewrite match_here_with_modifier, H2.
    cbn [andThen fst snd].
    destruct (run _ rest2 cs2 _) as [[rest cs]|] eqn:Ht;
      [|now destruct (modifier_tail_total rest2 cs2)].
    exists rest, cs.
    apply run_sound in H2 as (t2 & s2 & cs2' & -> & _ & [= <- <-] & _).
    pose proof Ht as Hkeep.
    apply run_sets_groups in Hkeep as (s3 & cs3 & [= -> ->] & Hkeep & _).
    apply run_sound in Ht as (t & s4 & cs4 & -> & Hl & [= -> ->] & Hcs).
    exists t. split; [reflexivity|].
    assert (Hnew : JS.take (String.length (t2 ++ t ++ rest) - String.length rest)
                     (t2 ++ t ++ rest) = t2 ++ t).
    { rewrite <- append_assoc.
      rewrite (length_append (t2 ++ t) rest), Nat.add_sub. apply take_append. }
    assert (Hold : JS.take (String.length (t2 ++ t ++ rest)
                            - String.length (t ++ rest)) (t2 ++ t ++ rest) = t2).
    { rewrite (length_append t2 (t ++ rest)), Nat.add_sub. apply take_append. }
    rewrite Hnew, Hold.
    repeat split; [assumption|].
    intros n Hn. destruct (capture n cs) as [q|] eqn:Hq.
    - destruct (Hcs n q Hq) as [-> | (r' & Hin & _)]; [reflexivity|].
      exfalso. revert Hin. unfold QUOTE_MODIFIER. cbn [Seq fold_right groupsOf].
      apply Nat.eqb_neq in Hn. rewrite Hn. intros [].
    - destruct (capture n cs2') eqn:Hq2; [|reflexivity].
      destruct (Hkeep n); [congruence | assumption]. }
  induction s as [|c s IH]; intros idx; cbn [exec_from];
    (destruct (match_here V2.COMMONMARK_PATTERN _) as [[rest2 cs2]|] eqn:H2;
     [destruct (Hhere _ _ _ H2) as (rest & cs & extra & -> & Hw & Hl & Hc);
      eexists _, extra; cbn [index whole groups]; auto |]).
  - now rewrite match_here_with_modifier, H2.
  - rewrite match_here_with_modifier, H2. cbn [andThen]. apply IH.
Qed.

(** X18.  The Style A pattern finds a directive exactly where the pattern
    of the version before it found one: the same index, the same file
    name, labels and range specs, the match longer only by the white space
    and the quote modifier that follow the closing parenthesis; and it
    finds none where that pattern found none.  The same does not hold of
    the Style B pattern, in which the modifier can end the lazy file name
    earlier. *)
Theorem previous_directives_still_match :
  (forall content,
      match exec V2.COMMONMARK_PATTERN content with
      | None => exec COMMONMARK_PATTERN content = None
      | Some old =>
          exists new extra,
            exec COMMONMARK_PATTERN content = Some new
            /\ index new = index old
            /\ whole new = whole old ++ extra
            /\ Lang (Seq [Rep Space 0 false; QUOTE_MODIFIER 6]) extra
            /\ (forall n, n <> 6 ->
                          capture n (groups new) = capture n (groups old))
      end)
  /\ option_map (fun old => capture 1 (groups old))
       (exec V2.MARKDOWN_IT_PATTERN "!!!include(a){quote}!!!)!!!")
     = Some (Some "a){quote}!!!")
  /\ option_map (fun new => capture 1 (groups new))
       (exec MARKDOWN_IT_PATTERN "!!!include(a){quote}!!!)!!!")
     = Some (Some "a").
Proof.
  split; [|split; reflexivity].
  intros content. apply exec_from_with_modifier.
Qed.

Lemma previous_directives_still_match_witness :
  exists new extra,
    exec COMMONMARK_PATTERN "x :(a.md#L2) {quote} y" = Some new
    /\ index new = 2
    /\ whole new = ":(a.md#L2)" ++ extra
    /\ Lang (Seq [Rep Space 0 false; QUOTE_MODIFIER 6]) extra
    /\ (forall n, n <> 6 ->
                  capture n (groups new) = capture n [(4, "2"); (3, "a.md")]).
Proof.
  exact (proj1 previous_directives_still_match "x :(a.md#L2) {quote} y").
Defined.
